(** * Vectorized table scan: TableVectorIterator and ParallelScan

    A shallow embedding of [src/execution/sql/table_vector_iterator.cpp]
    (terrier execution engine) and of the counting scan callback of
    [test/execution/table_vector_iterator_test.cpp].

    The iterator code is embedded field by field.  Its collaborators
    (catalog accessor, storage table, memory pool, TBB range and
    [parallel_for], thread-state container) are declared in headers that
    are not part of the two files; each one is given a small executable
    model below, marked as such. *)

From Stdlib Require Import ZArith Lia List Bool.
From stdpp Require Import base list.
Import ListNotations.

Local Open Scope Z_scope.

(* ===================================================================== *)
(** ** Machine integers *)

Definition wrap16 (z : Z) : Z := z mod 2 ^ 16.
Definition wrap32 (z : Z) : Z := z mod 2 ^ 32.

(** [std::numeric_limits<uint32_t>::max()] *)
Definition UINT32_MAX : Z := 2 ^ 32 - 1.

(* ===================================================================== *)
(** ** Outcomes of a call

    A call either returns, or the process stops at a failed
    [TERRIER_ASSERT] or at a dereference of a null pointer, or (for the
    caller-supplied loops only) the model runs out of fuel. *)

Inductive Fault : Type :=
  | AssertionFailure
  | NullDereference.

Inductive Outcome (A : Type) : Type :=
  | Returns (a : A)
  | Fatal (f : Fault)
  | OutOfFuel.

Arguments Returns {A} a.
Arguments Fatal {A} f.
Arguments OutOfFuel {A}.

Global Instance Outcome_ret : MRet Outcome := fun A a => Returns a.

Global Instance Outcome_bind : MBind Outcome := fun A B k m =>
  match m with
  | Returns a => k a
  | Fatal f => Fatal f
  | OutOfFuel => OutOfFuel
  end.

(* ===================================================================== *)
(** ** Storage collaborator *)

Module Storage.

(** A row of the relation; only its identity matters to the scan. *)
Definition Tuple : Type := Z.

(** Modelled from the spec: the table handle ([storage::SqlTable], not
    among the two files).  A table is an ordered sequence of blocks, each
    holding the rows a scan finds in it, and an ordered natural column set
    (column identifier and attribute width) in storage order. *)
Record SqlTable : Type := {
  tbl_blocks : list (list Tuple);
  tbl_columns : list (Z * nat)
}.

(** Modelled from the spec: total block count. *)
Definition GetBlockListSize (t : SqlTable) : Z :=
  Z.of_nat (length (tbl_blocks t)).

(** Modelled from the spec: column discovery returns the ordered full
    natural column-identifier set. *)
Definition GetAllColOid (t : SqlTable) : list Z := map fst (tbl_columns t).

(** Modelled from the spec: a cursor ([DataTable::SlotIterator]) is a
    position in the table's row sequence; cursors are compared for
    equality only. *)
Definition SlotIterator : Type := nat.

Definition rows_before (t : SqlTable) (n : nat) : nat :=
  length (concat (take n (tbl_blocks t))).

(** Modelled from the spec: a cursor positioned at a given block index,
    including one past the last block (larger indices are positioned
    there too). *)
Definition block_position (t : SqlTable) (block_idx : Z) : SlotIterator :=
  rows_before t (Z.to_nat (Z.min block_idx (GetBlockListSize t))).

Definition beginAt (t : SqlTable) (block_idx : Z) : SlotIterator :=
  block_position t block_idx.
Definition endAt (t : SqlTable) (block_idx : Z) : SlotIterator :=
  block_position t block_idx.

(** The batch: the resolved column set, the capacity and the rows of the
    last fill. *)
Record ProjectedColumns : Type := {
  pc_col_oids : list Z;
  pc_max_tuples : nat;
  pc_size : nat;
  pc_tuples : list Tuple
}.

Definition NumTuples (pc : ProjectedColumns) : nat := length (pc_tuples pc).
Definition Size (pc : ProjectedColumns) : nat := pc_size pc.

Record ProjectedColumnsInitializer : Type := {
  init_col_oids : list Z;
  init_max_tuples : nat;
  init_size : nat
}.

Definition attr_width (t : SqlTable) (oid : Z) : nat :=
  match find (fun c => Z.eqb (fst c) oid) (tbl_columns t) with
  | Some c => snd c
  | None => 0%nat
  end.

(** Modelled from the spec: the buffer layout for a column set at a given
    vector size (column-major, one attribute-wide slot per row). *)
Definition InitializerForProjectedColumns
    (t : SqlTable) (col_oids : list Z) (max_tuples : nat)
  : ProjectedColumnsInitializer :=
  {| init_col_oids := col_oids;
     init_max_tuples := max_tuples;
     init_size := (max_tuples * list_sum (map (attr_width t) col_oids))%nat |}.

Definition ProjectedColumnsSize (i : ProjectedColumnsInitializer) : nat :=
  init_size i.

Definition InitializeColumns (i : ProjectedColumnsInitializer) : ProjectedColumns :=
  {| pc_col_oids := init_col_oids i;
     pc_max_tuples := init_max_tuples i;
     pc_size := init_size i;
     pc_tuples := [] |}.

(** Modelled from the spec: batch fill.  Fills the buffer with the next
    run of rows found between the two cursors, at most the buffer's
    capacity, and advances the first cursor past them. *)
Definition RangeScan (t : SqlTable) (start_pos end_pos : SlotIterator)
    (out_buffer : ProjectedColumns) : SlotIterator * ProjectedColumns :=
  let n := Nat.min (pc_max_tuples out_buffer) (end_pos - start_pos)%nat in
  ((start_pos + n)%nat,
   {| pc_col_oids := pc_col_oids out_buffer;
      pc_max_tuples := pc_max_tuples out_buffer;
      pc_size := pc_size out_buffer;
      pc_tuples := take n (drop start_pos (concat (tbl_blocks t))) |}).

End Storage.
Import Storage.

(* ===================================================================== *)
(** ** Memory pool collaborator *)

(** Modelled from the spec: arena allocation ([MemoryPool], not among the
    two files): aligned allocate and deallocate of the batch buffer's
    backing memory.  Addresses are indices into the sequence of cells the
    pool has handed out; every call is recorded, so that allocations and
    releases can be counted. *)

Inductive PoolEvent : Type :=
  | EvAllocate (p : nat) (size : nat)
  | EvDeallocate (p : option nat) (size : nat).

Record Cell : Type := {
  cell_size : nat;
  cell_live : bool;
  cell_pc : option ProjectedColumns
}.

Record MemoryPool : Type := {
  pool_cells : list Cell;
  pool_log : list PoolEvent
}.

Definition empty_pool : MemoryPool := {| pool_cells := []; pool_log := [] |}.

Definition AllocateAligned (pool : MemoryPool) (size : nat) (alignment : Z) (clear : bool)
  : nat * MemoryPool :=
  let p := length (pool_cells pool) in
  (p, {| pool_cells := pool_cells pool
                         ++ [ {| cell_size := size; cell_live := true; cell_pc := None |} ];
         pool_log := pool_log pool ++ [EvAllocate p size] |}).

Definition release_cell (c : Cell) : Cell :=
  {| cell_size := cell_size c; cell_live := false; cell_pc := cell_pc c |}.

Definition Deallocate (pool : MemoryPool) (p : option nat) (size : nat) : MemoryPool :=
  {| pool_cells :=
       match p with
       | Some a => alter release_cell a (pool_cells pool)
       | None => pool_cells pool
       end;
     pool_log := pool_log pool ++ [EvDeallocate p size] |}.

(** Writing the batch that lives in the cell at [p], and reading it. *)
Definition store_pc (pool : MemoryPool) (p : nat) (pc : ProjectedColumns) : MemoryPool :=
  {| pool_cells :=
       alter (fun c => {| cell_size := cell_size c; cell_live := cell_live c;
                          cell_pc := Some pc |}) p (pool_cells pool);
     pool_log := pool_log pool |}.

Definition load_pc (pool : MemoryPool) (p : nat) : option ProjectedColumns :=
  match pool_cells pool !! p with
  | Some c => cell_pc c
  | None => None
  end.

(* ===================================================================== *)
(** ** Execution context *)

(** Modelled from the spec: table resolution ([ExecutionContext] and its
    catalog accessor, not among the two files): given a table identifier,
    a table handle or a not-found indication.  [exec_ctx_] is one shared
    object: the accessor, which the scan only reads, and the memory pool,
    which [Init] and the destructor update.  It is threaded through every
    call. *)

Record ExecutionContext : Type := {
  GetAccessor : Z -> option SqlTable;
  GetMemoryPool : MemoryPool
}.

Definition GetTable (ctx : ExecutionContext) (table_oid : Z) : option SqlTable :=
  GetAccessor ctx table_oid.

Definition with_pool (ctx : ExecutionContext) (pool : MemoryPool) : ExecutionContext :=
  {| GetAccessor := GetAccessor ctx; GetMemoryPool := pool |}.

(* ===================================================================== *)
(** ** Row cursor collaborator *)

(** Modelled from the spec: the projected-columns iterator is bound to a
    batch and walks forward over the rows currently in it. *)
Record ProjectedColumnsIterator : Type := {
  pci_columns : option nat;
  pci_idx : nat
}.

Definition unbound_pci : ProjectedColumnsIterator :=
  {| pci_columns := None; pci_idx := 0%nat |}.

Definition SetProjectedColumn (p : nat) : ProjectedColumnsIterator :=
  {| pci_columns := Some p; pci_idx := 0%nat |}.

Definition PciHasNext (pci : ProjectedColumnsIterator) (pool : MemoryPool) : bool :=
  match pci_columns pci with
  | Some p =>
      match load_pc pool p with
      | Some pc => Nat.ltb (pci_idx pci) (NumTuples pc)
      | None => false
      end
  | None => false
  end.

Definition PciAdvance (pci : ProjectedColumnsIterator) : ProjectedColumnsIterator :=
  {| pci_columns := pci_columns pci; pci_idx := S (pci_idx pci) |}.

(* ===================================================================== *)
(** ** TableVectorIterator *)

(** The object's fields.  Pointers are options; the header that gives the
    members their initial values is not part of the two files, and they are
    taken to start out null, [initialized_] false. *)
Record TableVectorIterator : Type := {
  table_oid_ : Z;
  col_oids_ : list Z;
  start_block_idx_ : Z;
  end_block_idx_ : Z;
  table_ : option SqlTable;
  buffer_ : option nat;
  projected_columns_ : option nat;
  pci_ : ProjectedColumnsIterator;
  initialized_ : bool;
  iter_ : option SlotIterator;
  iter_end_ : option SlotIterator
}.

(** The six-argument constructor: [col_oids_(col_oids, col_oids + num_oids)]. *)
Definition TableVectorIterator_range
    (table_oid : Z) (col_oids : list Z) (num_oids : nat)
    (start_block_idx end_block_idx : Z) : TableVectorIterator :=
  {| table_oid_ := table_oid;
     col_oids_ := take num_oids col_oids;
     start_block_idx_ := start_block_idx;
     end_block_idx_ := end_block_idx;
     table_ := None;
     buffer_ := None;
     projected_columns_ := None;
     pci_ := unbound_pci;
     initialized_ := false;
     iter_ := None;
     iter_end_ := None |}.

(** The four-argument constructor delegates with the whole block range. *)
Definition TableVectorIterator_new
    (table_oid : Z) (col_oids : list Z) (num_oids : nat) : TableVectorIterator :=
  TableVectorIterator_range table_oid col_oids num_oids 0 UINT32_MAX.

Definition set_cursor (it : TableVectorIterator) (c : option SlotIterator)
  : TableVectorIterator :=
  {| table_oid_ := table_oid_ it;
     col_oids_ := col_oids_ it;
     start_block_idx_ := start_block_idx_ it;
     end_block_idx_ := end_block_idx_ it;
     table_ := table_ it;
     buffer_ := buffer_ it;
     projected_columns_ := projected_columns_ it;
     pci_ := pci_ it;
     initialized_ := initialized_ it;
     iter_ := c;
     iter_end_ := iter_end_ it |}.

Definition set_pci (it : TableVectorIterator) (pci : ProjectedColumnsIterator)
  : TableVectorIterator :=
  {| table_oid_ := table_oid_ it;
     col_oids_ := col_oids_ it;
     start_block_idx_ := start_block_idx_ it;
     end_block_idx_ := end_block_idx_ it;
     table_ := table_ it;
     buffer_ := buffer_ it;
     projected_columns_ := projected_columns_ it;
     pci_ := pci;
     initialized_ := initialized_ it;
     iter_ := iter_ it;
     iter_end_ := iter_end_ it |}.

(** Dereferencing a pointer. *)
Definition deref {A : Type} (p : option A) : Outcome A :=
  match p with
  | Some a => Returns a
  | None => Fatal NullDereference
  end.

Section Engine.

(** [common::Constants::K_DEFAULT_VECTOR_SIZE], declared outside the two
    files. *)
Variable K_DEFAULT_VECTOR_SIZE : nat.

(** [bool TableVectorIterator::Init()].  [TERRIER_ASSERT] (a macro defined
    outside the two files) stops the process when its condition fails. *)
Definition Init (it : TableVectorIterator) (ctx : ExecutionContext)
  : Outcome (bool * TableVectorIterator * ExecutionContext) :=
  match GetTable ctx (table_oid_ it) with
  | None => Fatal AssertionFailure
  | Some table =>
      let col_oids :=
        match col_oids_ it with
        | [] => GetAllColOid table
        | _ :: _ => col_oids_ it
        end in
      let pc_init := InitializerForProjectedColumns table col_oids K_DEFAULT_VECTOR_SIZE in
      let '(buffer, pool1) :=
        AllocateAligned (GetMemoryPool ctx) (ProjectedColumnsSize pc_init) 8 false in
      let pool2 := store_pc pool1 buffer (InitializeColumns pc_init) in
      Returns
        (true,
         {| table_oid_ := table_oid_ it;
            col_oids_ := col_oids;
            start_block_idx_ := start_block_idx_ it;
            end_block_idx_ := end_block_idx_ it;
            table_ := Some table;
            buffer_ := Some buffer;
            projected_columns_ := Some buffer;
            pci_ := pci_ it;
            initialized_ := true;
            iter_ := Some (beginAt table (start_block_idx_ it));
            iter_end_ := Some (endAt table (end_block_idx_ it)) |},
         with_pool ctx pool2)
  end.

(** [bool TableVectorIterator::Advance()] *)
Definition Advance (it : TableVectorIterator) (ctx : ExecutionContext)
  : Outcome (bool * TableVectorIterator * ExecutionContext) :=
  if negb (initialized_ it) then Returns (false, it, ctx)
  else
    cur ← deref (iter_ it);
    fin ← deref (iter_end_ it);
    if Nat.eqb cur fin then Returns (false, it, ctx)
    else
      table ← deref (table_ it);
      pcp ← deref (projected_columns_ it);
      pc ← deref (load_pc (GetMemoryPool ctx) pcp);
      let '(cur', pc') := RangeScan table cur fin pc in
      Returns
        (true,
         set_pci (set_cursor it (Some cur')) (SetProjectedColumn pcp),
         with_pool ctx (store_pc (GetMemoryPool ctx) pcp pc')).

(** [void TableVectorIterator::Reset()] *)
Definition Reset (it : TableVectorIterator) : Outcome TableVectorIterator :=
  if negb (initialized_ it) then Returns it
  else
    table ← deref (table_ it);
    Returns (set_cursor it (Some (beginAt table (start_block_idx_ it)))).

(** [TableVectorIterator::~TableVectorIterator()]: the release is not
    guarded by [initialized_]; [projected_columns_->Size()] is read through
    the pointer first. *)
Definition Destroy (it : TableVectorIterator) (ctx : ExecutionContext)
  : Outcome ExecutionContext :=
  pcp ← deref (projected_columns_ it);
  pc ← deref (load_pc (GetMemoryPool ctx) pcp);
  Returns (with_pool ctx (Deallocate (GetMemoryPool ctx) (buffer_ it) (Size pc))).

Definition GetProjectedColumnsIterator (it : TableVectorIterator)
  : ProjectedColumnsIterator := pci_ it.

End Engine.

(* ===================================================================== *)
(** ** Worker pool collaborator: [tbb::blocked_range] and [tbb::parallel_for]

    The range class and the scheduler come from the TBB headers the source
    includes.  The range is embedded as TBB defines it: a range is divisible
    when it is longer than its grain size, and splitting cuts it at
    [begin + (end - begin) / 2].  Which divisible ranges the scheduler
    really splits, and which worker runs which piece, is its own choice; a
    [Scheduler] value records one such choice, and the theorems quantify
    over all of them. *)

Record blocked_range : Type := {
  my_begin : Z;
  my_end : Z;
  my_grainsize : Z
}.

Definition range_size (r : blocked_range) : Z := my_end r - my_begin r.

Definition range_empty (r : blocked_range) : bool := negb (my_begin r <? my_end r).

Definition is_divisible (r : blocked_range) : bool := my_grainsize r <? range_size r.

(** The splitting constructor: the old range keeps the lower half. *)
Definition do_split (r : blocked_range) : blocked_range * blocked_range :=
  let middle := my_begin r + (my_end r - my_begin r) / 2 in
  ({| my_begin := my_begin r; my_end := middle; my_grainsize := my_grainsize r |},
   {| my_begin := middle; my_end := my_end r; my_grainsize := my_grainsize r |}).

Record Scheduler : Type := {
  sched_split : blocked_range -> bool;
  sched_worker : blocked_range -> nat
}.

(** The pieces a range is cut into: a piece is split only while it is
    divisible and the scheduler asks for it. *)
Fixpoint subranges (fuel : nat) (sched : Scheduler) (r : blocked_range)
  : list blocked_range :=
  match fuel with
  | O => [r]
  | S fuel' =>
      if is_divisible r && sched_split sched r then
        let '(lo, hi) := do_split r in
        subranges fuel' sched lo ++ subranges fuel' sched hi
      else [r]
  end.

(** [parallel_for] starts nothing on an empty range. *)
Definition scan_partition (sched : Scheduler) (r : blocked_range) : list blocked_range :=
  if range_empty r then []
  else subranges (Z.to_nat (range_size r)) sched r.

(** The scheduler that splits whenever it may (TBB's simple partitioner). *)
Definition eager : Scheduler :=
  {| sched_split := fun _ => true; sched_worker := fun r => Z.to_nat (my_begin r) |}.

(** The scheduler that never splits (a single worker, no stealing). *)
Definition lazy : Scheduler :=
  {| sched_split := fun _ => false; sched_worker := fun _ => 0%nat |}.

(** Fork-join execution of a body over the pieces.  The pieces touch
    disjoint worker slots or run one after another on the same worker, so
    the run is written as one pass over them. *)
Fixpoint run_tasks {S : Type} (body : blocked_range -> nat -> S -> Outcome S)
    (sched : Scheduler) (pieces : list blocked_range) (s : S) : Outcome S :=
  match pieces with
  | [] => Returns s
  | r :: rest =>
      s' ← body r (sched_worker sched r) s;
      run_tasks body sched rest s'
  end.

Definition parallel_for {S : Type} (sched : Scheduler) (range : blocked_range)
    (body : blocked_range -> nat -> S -> Outcome S) (s : S) : Outcome S :=
  run_tasks body sched (scan_partition sched range) s.

(* ===================================================================== *)
(** ** Thread-state container collaborator *)

(** Modelled from the spec: one private slot per worker, created with the
    container's initial value when the worker first asks for it. *)
Record ThreadStateContainer (TS : Type) : Type := {
  tsc_init : TS;
  tsc_states : list (nat * TS)
}.
Arguments tsc_init {TS} _.
Arguments tsc_states {TS} _.

Fixpoint find_state {TS : Type} (l : list (nat * TS)) (w : nat) : option TS :=
  match l with
  | [] => None
  | (v, s) :: rest => if Nat.eqb v w then Some s else find_state rest w
  end.

Fixpoint put_state {TS : Type} (l : list (nat * TS)) (w : nat) (s : TS)
  : list (nat * TS) :=
  match l with
  | [] => [(w, s)]
  | (v, x) :: rest =>
      if Nat.eqb v w then (w, s) :: rest else (v, x) :: put_state rest w s
  end.

Definition AccessThreadStateOfCurrentThread {TS : Type}
    (c : ThreadStateContainer TS) (worker : nat) : TS :=
  match find_state (tsc_states c) worker with
  | Some s => s
  | None => tsc_init c
  end.

Definition write_thread_state {TS : Type}
    (c : ThreadStateContainer TS) (worker : nat) (s : TS) : ThreadStateContainer TS :=
  {| tsc_init := tsc_init c; tsc_states := put_state (tsc_states c) worker s |}.

(** [ForEach]: the final slots, one per worker that ran a task. *)
Definition ForEach {TS : Type} (c : ThreadStateContainer TS) : list TS :=
  map snd (tsc_states c).

(* ===================================================================== *)
(** ** ScanTask and ParallelScan *)

Section Parallel.

Variable K_DEFAULT_VECTOR_SIZE : nat.
Context {QS TS : Type}.

(** [TableVectorIterator::ScanFn]: the callback works on the worker's slot
    and on the iterator it is handed, through pointers. *)
Definition ScanFn : Type :=
  QS -> TS -> TableVectorIterator -> ExecutionContext ->
  Outcome (TS * TableVectorIterator * ExecutionContext).

(** What the scan touches: the shared context, the thread states, and
    the tasks the worker pool has run so far. *)
Record World : Type := {
  w_ctx : ExecutionContext;
  w_thread_states : ThreadStateContainer TS;
  w_tasks : list blocked_range
}.

Record ScanTask : Type := {
  table_id_ : Z;
  query_state_ : QS;
  scanner_ : ScanFn
}.

(** The constructor takes the table identifier as [uint16_t]. *)
Definition ScanTask_new (table_id : Z) (query_state : QS) (scanner : ScanFn)
  : ScanTask :=
  {| table_id_ := wrap16 table_id;
     query_state_ := query_state;
     scanner_ := scanner |}.

(** The iterator a task builds for its block range. *)
Definition task_iterator (task : ScanTask) (block_range : blocked_range)
  : TableVectorIterator :=
  TableVectorIterator_range (table_id_ task) [] 0
    (my_begin block_range) (my_end block_range).

(** Which way a task left [operator()]. *)
Inductive TaskPath : Type :=
  | InitFailed
  | Scanned.

(** [void ScanTask::operator()(const tbb::blocked_range<uint32_t> &) const];
    the local iterator is destroyed on both ways out. *)
Definition ScanTask_call (task : ScanTask) (block_range : blocked_range)
    (worker : nat) (w : World) : Outcome (TaskPath * World) :=
  let iter := task_iterator task block_range in
  '(ok, iter1, ctx1) ← Init K_DEFAULT_VECTOR_SIZE iter (w_ctx w);
  if negb ok then
    ctx2 ← Destroy iter1 ctx1;
    Returns (InitFailed,
             {| w_ctx := ctx2;
                w_thread_states := w_thread_states w;
                w_tasks := w_tasks w ++ [block_range] |})
  else
    let thread_state := AccessThreadStateOfCurrentThread (w_thread_states w) worker in
    '(thread_state', iter2, ctx2) ←
      scanner_ task (query_state_ task) thread_state iter1 ctx1;
    ctx3 ← Destroy iter2 ctx2;
    Returns (Scanned,
             {| w_ctx := ctx3;
                w_thread_states :=
                  write_thread_state (w_thread_states w) worker thread_state';
                w_tasks := w_tasks w ++ [block_range] |}).

Definition ScanTask_body (task : ScanTask) (block_range : blocked_range)
    (worker : nat) (w : World) : Outcome World :=
  '(_, w') ← ScanTask_call task block_range worker w;
  Returns w'.

(** [bool TableVectorIterator::ParallelScan(...)]; the timer and the line
    printed at the end are not modelled. *)
Definition ParallelScan (sched : Scheduler) (table_oid : Z) (query_state : QS)
    (scan_fn : ScanFn) (w : World) : Outcome (bool * World) :=
  match GetTable (w_ctx w) table_oid with
  | None => Returns (false, w)
  | Some table =>
      let block_count := GetBlockListSize table in
      let min_grain_size := 3 in
      let block_range :=
        {| my_begin := 0; my_end := wrap32 block_count;
           my_grainsize := min_grain_size |} in
      w' ← parallel_for sched block_range
             (ScanTask_body (ScanTask_new table_oid query_state scan_fn)) w;
      Returns (true, w')
  end.

End Parallel.

(* ===================================================================== *)
(** ** The counting scan of the test suite *)

(** Rows left in the batch the cursor is bound to. *)
Definition pci_remaining (pci : ProjectedColumnsIterator) (pool : MemoryPool) : nat :=
  match pci_columns pci with
  | Some p =>
      match load_pc pool p with
      | Some pc => (NumTuples pc - pci_idx pci)%nat
      | None => 0%nat
      end
  | None => 0%nat
  end.

(** [for (...; pci->HasNext(); pci->Advance()) counter->c++;] on a
    [uint32_t] counter; [n] bounds the number of rounds. *)
Fixpoint count_rows (n : nat) (pci : ProjectedColumnsIterator) (pool : MemoryPool)
    (c : Z) : ProjectedColumnsIterator * Z :=
  match n with
  | O => (pci, c)
  | S n' =>
      if PciHasNext pci pool
      then count_rows n' (PciAdvance pci) pool (wrap32 (c + 1))
      else (pci, c)
  end.

(** The [scanner] lambda of [ParallelScanTest]:
    [while (tvi->Advance()) { for (...) counter->c++; }] *)
Fixpoint scanner (fuel : nat) (state : unit) (tls : Z) (tvi : TableVectorIterator)
    (ctx : ExecutionContext) : Outcome (Z * TableVectorIterator * ExecutionContext) :=
  match fuel with
  | O => OutOfFuel
  | S fuel' =>
      '(more, tvi1, ctx1) ← Advance tvi ctx;
      if (more : bool) then
        let pci := GetProjectedColumnsIterator tvi1 in
        let '(pci', c') :=
          count_rows (pci_remaining pci (GetMemoryPool ctx1)) pci (GetMemoryPool ctx1) tls in
        scanner fuel' state c' (set_pci tvi1 pci') ctx1
      else Returns (tls, tvi1, ctx1)
  end.

(** [aggregate_tuple_count += counter->c] over every worker's slot. *)
Definition aggregate_tuple_count (counters : list Z) : Z :=
  fold_left (fun acc c => wrap32 (acc + c)) counters 0.

(** The world a parallel scan of the test suite starts from. *)
Definition world_of (ctx : ExecutionContext) : @World Z :=
  {| w_ctx := ctx;
     w_thread_states := {| tsc_init := 0; tsc_states := [] |};
     w_tasks := [] |}.

Section Counting.

Variable K_DEFAULT_VECTOR_SIZE : nat.

(** A parallel scan with the counting callback, thread states created
    with [c = 0], then the fold over the workers' counters. *)
Definition parallel_count (fuel : nat) (sched : Scheduler) (table_oid : Z)
    (ctx : ExecutionContext) : Outcome (bool * Z) :=
  '(ok, w') ← ParallelScan K_DEFAULT_VECTOR_SIZE sched table_oid tt (scanner fuel)
                (world_of ctx);
  Returns (ok, aggregate_tuple_count (ForEach (w_thread_states w'))).

(** A single iterator over the whole table, driven by the same counting
    loop (as in [SimpleIteratorTest], one requested column). *)
Definition sequential_count (fuel : nat) (table_oid : Z) (ctx : ExecutionContext)
  : Outcome Z :=
  let iter := TableVectorIterator_new table_oid [1] 1 in
  '(_, iter1, ctx1) ← Init K_DEFAULT_VECTOR_SIZE iter ctx;
  '(n, iter2, ctx2) ← scanner fuel tt 0 iter1 ctx1;
  _ ← Destroy iter2 ctx2;
  Returns n.

End Counting.

(** A few concrete tables to run the definitions on. *)
Definition table_a : SqlTable :=
  {| tbl_blocks := [[10; 11]; [12]; []; [13; 14; 15]; [16]];
     tbl_columns := [(1, 4%nat); (2, 2%nat)] |}.

Definition table_b : SqlTable :=
  {| tbl_blocks := [[7]]; tbl_columns := [(1, 4%nat)] |}.

Definition empty_table : SqlTable :=
  {| tbl_blocks := []; tbl_columns := [(1, 4%nat)] |}.

Definition catalog_small (oid : Z) : option SqlTable :=
  if oid =? 1 then Some table_a
  else if oid =? 2 then Some empty_table
  else if oid =? 65537 then Some table_b
  else if oid =? 65536 then Some table_b
  else None.

Definition ctx_small : ExecutionContext :=
  {| GetAccessor := catalog_small; GetMemoryPool := empty_pool |}.

(* ===================================================================== *)
(** ** The sequential scan of the test suite *)

(** Modelled from the spec: typed access to the row the cursor stands on,
    and the reset that allows a second traversal of the batch. *)
Definition PciGet (pci : ProjectedColumnsIterator) (pool : MemoryPool) : option Tuple :=
  match pci_columns pci with
  | Some p =>
      match load_pc pool p with
      | Some pc => pc_tuples pc !! pci_idx pci
      | None => None
      end
  | None => None
  end.

Definition PciReset (pci : ProjectedColumnsIterator) : ProjectedColumnsIterator :=
  {| pci_columns := pci_columns pci; pci_idx := 0%nat |}.

(** [for (; pci->HasNext(); pci->Advance()) { val = pci->Get(0); ... }]:
    the values read, in order; [n] bounds the number of rounds. *)
Fixpoint visit_rows (n : nat) (pci : ProjectedColumnsIterator) (pool : MemoryPool)
    (seen : list Tuple) : ProjectedColumnsIterator * list Tuple :=
  match n with
  | O => (pci, seen)
  | S n' =>
      if PciHasNext pci pool then
        match PciGet pci pool with
        | Some val => visit_rows n' (PciAdvance pci) pool (seen ++ [val])
        | None => (pci, seen)
        end
      else (pci, seen)
  end.

(** The loop of [SimpleIteratorTest]:
    [while (iter.Advance()) { for (...) {...} pci->Reset(); }] *)
Fixpoint iterate_table (fuel : nat) (iter : TableVectorIterator)
    (ctx : ExecutionContext) (seen : list Tuple)
  : Outcome (list Tuple * TableVectorIterator * ExecutionContext) :=
  match fuel with
  | O => OutOfFuel
  | S fuel' =>
      '(more, iter1, ctx1) ← Advance iter ctx;
      if (more : bool) then
        let pci := GetProjectedColumnsIterator iter1 in
        let '(pci', seen') :=
          visit_rows (pci_remaining pci (GetMemoryPool ctx1)) pci (GetMemoryPool ctx1) seen in
        iterate_table fuel' (set_pci iter1 (PciReset pci')) ctx1 seen'
      else Returns (seen, iter1, ctx1)
  end.

(** [SimpleIteratorTest]: one requested column, the whole table; the
    result is the sequence of values the test reads ([num_tuples] is its
    length). *)
Definition SimpleIteratorTest_scan (V fuel : nat) (table_oid : Z)
    (ctx : ExecutionContext) : Outcome (list Tuple) :=
  let iter := TableVectorIterator_new table_oid [1] 1 in
  '(_, iter1, ctx1) ← Init V iter ctx;
  '(seen, iter2, ctx2) ← iterate_table fuel iter1 ctx1 [];
  _ ← Destroy iter2 ctx2;
  Returns seen.

(* ===================================================================== *)
(** * Vocabulary of the properties *)

(** ** The state of an iterator after [Init] *)

(** [Ready it ctx]: [Init] has completed on [it]: the flag is set, the
    table, both cursors and the batch pointer are set, and the batch
    pointer denotes a cell of the pool that holds a batch. *)
Definition Ready (it : TableVectorIterator) (ctx : ExecutionContext) : Prop :=
  initialized_ it = true /\
  exists t cur fin p pc,
    table_ it = Some t /\ iter_ it = Some cur /\ iter_end_ it = Some fin /\
    projected_columns_ it = Some p /\ buffer_ it = Some p /\
    load_pc (GetMemoryPool ctx) p = Some pc.

(** An iterator is well formed when it is either untouched by [Init] or
    ready. *)
Definition well_formed (it : TableVectorIterator) (ctx : ExecutionContext) : Prop :=
  initialized_ it = false \/ Ready it ctx.

(** The cursor pair has converged. *)
Definition converged (it : TableVectorIterator) : Prop :=
  exists c, iter_ it = Some c /\ iter_end_ it = Some c.

(** The results of [n] successive calls of [Advance]. *)
Fixpoint advance_calls (n : nat) (it : TableVectorIterator) (ctx : ExecutionContext)
  : Outcome (list bool) :=
  match n with
  | O => Returns []
  | S n' =>
      '(b, it', ctx') ← Advance it ctx;
      bs ← advance_calls n' it' ctx';
      Returns (b :: bs)
  end.

(** The pieces follow one another from [lo] to [hi]: each is non-empty and
    starts where the previous one ends. *)
Fixpoint chained (lo hi : Z) (rs : list blocked_range) : Prop :=
  match rs with
  | [] => lo = hi
  | r :: rest => my_begin r = lo /\ my_begin r < my_end r /\ chained (my_end r) hi rest
  end.

(** Every piece but the last is at least [g] long. *)
Definition grain_respected (g : Z) (rs : list blocked_range) : Prop :=
  forall (i : nat) (r : blocked_range),
    rs !! i = Some r -> (S i < length rs)%nat -> g <= range_size r.

(** The block range [ParallelScan] hands to the worker pool. *)
Definition block_range_of (B g : Z) : blocked_range :=
  {| my_begin := 0; my_end := B; my_grainsize := g |}.

(** The iterator owns the buffer at [p], laid out for [size] bytes. *)
Definition Holds (it : TableVectorIterator) (ctx : ExecutionContext)
    (p size : nat) : Prop :=
  projected_columns_ it = Some p /\ buffer_ it = Some p /\
  exists pc, load_pc (GetMemoryPool ctx) p = Some pc /\ Size pc = size.

(** A callback that returns, and hands the iterator back in a state in
    which it can be destroyed, without touching the catalog. *)
Definition well_behaved {QS TS : Type} (fn : @ScanFn QS TS) : Prop :=
  forall (qs : QS) (ts : TS) (it : TableVectorIterator) (ctx : ExecutionContext),
    Ready it ctx ->
    exists ts' it' ctx',
      fn qs ts it ctx = Returns (ts', it', ctx') /\
      Ready it' ctx' /\ GetAccessor ctx' = GetAccessor ctx.

(** The number of rows of a table. *)
Definition total_rows (t : SqlTable) : nat := length (concat (tbl_blocks t)).

(** The plain sum of the workers' counters. *)
Definition sum_counters (l : list (nat * Z)) : Z :=
  foldr (fun x acc => snd x + acc) 0 l.

Definition counters_in_range (l : list (nat * Z)) : Prop :=
  Forall (fun x => 0 <= snd x < 2 ^ 32) l.

(** The iterator and the context after [Init] on table 1 of the small
    catalog, with batches of two rows. *)
Definition it_ready : TableVectorIterator :=
  match Init 2 (TableVectorIterator_new 1 [1] 1) ctx_small with
  | Returns (_, it, _) => it
  | _ => TableVectorIterator_new 1 [1] 1
  end.

Definition ctx_ready : ExecutionContext :=
  match Init 2 (TableVectorIterator_new 1 [1] 1) ctx_small with
  | Returns (_, _, ctx) => ctx
  | _ => ctx_small
  end.

(** An initialised iterator over table [t], standing at [cur] with end
    cursor [fin], whose batch of capacity [V] and size [size] lives at
    [p]. *)
Definition Scanning (it : TableVectorIterator) (ctx : ExecutionContext)
    (t : SqlTable) (cur fin p V size : nat) : Prop :=
  initialized_ it = true /\ table_ it = Some t /\
  iter_ it = Some cur /\ iter_end_ it = Some fin /\
  projected_columns_ it = Some p /\ buffer_ it = Some p /\
  exists pc, load_pc (GetMemoryPool ctx) p = Some pc /\
             pc_max_tuples pc = V /\ Size pc = size.

(** Calls of [AllocateAligned] and of [Deallocate] recorded in a log. *)
Fixpoint allocations (log : list PoolEvent) : nat :=
  match log with
  | [] => 0
  | EvAllocate _ _ :: rest => S (allocations rest)
  | EvDeallocate _ _ :: rest => allocations rest
  end.

Fixpoint releases (log : list PoolEvent) : nat :=
  match log with
  | [] => 0
  | EvAllocate _ _ :: rest => releases rest
  | EvDeallocate _ _ :: rest => S (releases rest)
  end.

(** The ready iterator after one [Advance]. *)
Definition it_advanced : TableVectorIterator :=
  match Advance it_ready ctx_ready with
  | Returns (_, it, _) => it
  | _ => it_ready
  end.

Definition ctx_advanced : ExecutionContext :=
  match Advance it_ready ctx_ready with
  | Returns (_, _, ctx) => ctx
  | _ => ctx_ready
  end.



(* ===================================================================== *)
(** * Properties *)

Lemma load_store_pc (pool : MemoryPool) (p : nat) (pc : ProjectedColumns) :
  (p < length (pool_cells pool))%nat ->
  load_pc (store_pc pool p pc) p = Some pc.
Proof.
  intros Hp. unfold load_pc, store_pc; simpl.
  destruct (lookup_lt_is_Some_2 (pool_cells pool) p Hp) as [c Hc].
  rewrite list_lookup_alter_eq, Hc. reflexivity.
Qed.

Lemma load_pc_bound (pool : MemoryPool) (p : nat) (pc : ProjectedColumns) :
  load_pc pool p = Some pc -> (p < length (pool_cells pool))%nat.
Proof.
  unfold load_pc. destruct (pool_cells pool !! p) eqn:E; [|discriminate].
  intros _. eapply lookup_lt_Some; eassumption.
Qed.

Lemma load_after_allocate (pool : MemoryPool) (size : nat) (al : Z) (cl : bool)
    (pc : ProjectedColumns) :
  load_pc (store_pc (snd (AllocateAligned pool size al cl))
                    (fst (AllocateAligned pool size al cl)) pc)
          (length (pool_cells pool)) = Some pc.
Proof.
  unfold AllocateAligned; cbn [fst snd].
  apply load_store_pc. cbn [pool_cells]. rewrite length_app. simpl. lia.
Qed.

Lemma Init_returns (V : nat) (it : TableVectorIterator) (ctx : ExecutionContext)
    (t : SqlTable) :
  GetTable ctx (table_oid_ it) = Some t ->
  exists it' ctx',
    Init V it ctx = Returns (true, it', ctx') /\
    Ready it' ctx' /\
    GetAccessor ctx' = GetAccessor ctx /\
    table_ it' = Some t /\
    table_oid_ it' = table_oid_ it /\
    start_block_idx_ it' = start_block_idx_ it /\
    end_block_idx_ it' = end_block_idx_ it /\
    iter_ it' = Some (beginAt t (start_block_idx_ it)) /\
    iter_end_ it' = Some (endAt t (end_block_idx_ it)) /\
    col_oids_ it' = (match col_oids_ it with [] => GetAllColOid t | _ :: _ => col_oids_ it end) /\
    exists pc, load_pc (GetMemoryPool ctx') (length (pool_cells (GetMemoryPool ctx))) = Some pc /\
               pc_max_tuples pc = V /\
               pc_col_oids pc = col_oids_ it' /\
               projected_columns_ it' = Some (length (pool_cells (GetMemoryPool ctx))).
Proof.
  intros Ht. unfold Init. rewrite Ht.
  set (cols := match col_oids_ it with [] => GetAllColOid t | _ :: _ => col_oids_ it end).
  set (pc_init := InitializerForProjectedColumns t cols V).
  pose proof (load_after_allocate (GetMemoryPool ctx) (ProjectedColumnsSize pc_init)
                8 false (InitializeColumns pc_init)) as Hload.
  unfold AllocateAligned in *. cbv zeta in *. cbn [fst snd] in Hload.
  eexists _, _. split; [reflexivity|].
  repeat split; try reflexivity.
  - exists t, (beginAt t (start_block_idx_ it)), (endAt t (end_block_idx_ it)),
      (length (pool_cells (GetMemoryPool ctx))), (InitializeColumns pc_init).
    repeat split; try reflexivity. exact Hload.
  - exists (InitializeColumns pc_init). repeat split; try reflexivity. exact Hload.
Qed.

(** ** [Advance] *)

Lemma Advance_not_initialized (it : TableVectorIterator) (ctx : ExecutionContext) :
  initialized_ it = false -> Advance it ctx = Returns (false, it, ctx).
Proof. intros H. unfold Advance. rewrite H. reflexivity. Qed.

Lemma Advance_converged (it : TableVectorIterator) (ctx : ExecutionContext) :
  well_formed it ctx -> converged it -> Advance it ctx = Returns (false, it, ctx).
Proof.
  intros Hwf [c [Hc Hf]]. unfold Advance.
  destruct (initialized_ it); [|reflexivity].
  rewrite Hc, Hf. simpl. rewrite Nat.eqb_refl. reflexivity.
Qed.

Lemma Advance_fill (it : TableVectorIterator) (ctx : ExecutionContext)
    (t : SqlTable) (cur fin p : nat) (pc : ProjectedColumns) :
  initialized_ it = true ->
  table_ it = Some t -> iter_ it = Some cur -> iter_end_ it = Some fin ->
  projected_columns_ it = Some p ->
  load_pc (GetMemoryPool ctx) p = Some pc ->
  cur <> fin ->
  Advance it ctx =
    Returns (true,
             set_pci (set_cursor it (Some (fst (RangeScan t cur fin pc))))
                     (SetProjectedColumn p),
             with_pool ctx (store_pc (GetMemoryPool ctx) p (snd (RangeScan t cur fin pc)))).
Proof.
  intros Hi Ht Hc Hf Hp Hl Hne. unfold Advance.
  rewrite Hi, Hc, Hf. simpl.
  destruct (Nat.eqb_spec cur fin) as [E|_]; [contradiction|].
  rewrite Ht, Hp. simpl. rewrite Hl. reflexivity.
Qed.

(** C1. For every well-formed iterator, [Advance] returns false, leaving the
    iterator and the context as they were, exactly when [Init] was never
    completed or the current cursor equals the end cursor; otherwise it has
    the storage collaborator fill the batch from the current cursor
    ([RangeScan]), stores the advanced cursor, binds the row cursor to the
    batch pointer, whose cell now holds the refreshed batch, and returns
    true. *)
Theorem Advance_contract (it : TableVectorIterator) (ctx : ExecutionContext) :
  well_formed it ctx ->
  ((exists it' ctx', Advance it ctx = Returns (false, it', ctx'))
     <-> (initialized_ it = false \/ converged it)) /\
  (initialized_ it = false \/ converged it ->
     Advance it ctx = Returns (false, it, ctx)) /\
  (~ (initialized_ it = false \/ converged it) ->
     exists t cur fin p pc,
       table_ it = Some t /\ iter_ it = Some cur /\ iter_end_ it = Some fin /\
       projected_columns_ it = Some p /\
       load_pc (GetMemoryPool ctx) p = Some pc /\
       let filled := RangeScan t cur fin pc in
       let it' := set_pci (set_cursor it (Some (fst filled))) (SetProjectedColumn p) in
       let ctx' := with_pool ctx (store_pc (GetMemoryPool ctx) p (snd filled)) in
       Advance it ctx = Returns (true, it', ctx') /\
       iter_ it' = Some (fst filled) /\
       pci_columns (GetProjectedColumnsIterator it') = projected_columns_ it' /\
       load_pc (GetMemoryPool ctx') p = Some (snd filled)).
Proof.
  intros Hwf.
  assert (Hfalse : initialized_ it = false \/ converged it ->
                   Advance it ctx = Returns (false, it, ctx)).
  { intros [H|H]; [apply Advance_not_initialized | apply Advance_converged]; assumption. }
  assert (Htrue : ~ (initialized_ it = false \/ converged it) ->
     exists t cur fin p pc,
       table_ it = Some t /\ iter_ it = Some cur /\ iter_end_ it = Some fin /\
       projected_columns_ it = Some p /\
       load_pc (GetMemoryPool ctx) p = Some pc /\
       cur <> fin /\
       Advance it ctx =
         Returns (true,
                  set_pci (set_cursor it (Some (fst (RangeScan t cur fin pc))))
                          (SetProjectedColumn p),
                  with_pool ctx (store_pc (GetMemoryPool ctx) p
                                   (snd (RangeScan t cur fin pc))))).
  { intros Hn. destruct Hwf as [H|[Hi (t & cur & fin & p & pc & Ht & Hc & Hf & Hp & _ & Hl)]].
    - exfalso. apply Hn. left. exact H.
    - assert (Hne : cur <> fin).
      { intros E. apply Hn. right. exists cur. subst fin. split; assumption. }
      exists t, cur, fin, p, pc. repeat split; try assumption.
      apply Advance_fill; assumption. }
  split; [|split].
  - split.
    + intros (it' & ctx' & HA).
      destruct Hwf as [H|[Hi (t & cur & fin & p & pc & Ht & Hc & Hf & Hp & _ & Hl)]].
      * left. exact H.
      * destruct (Nat.eq_dec cur fin) as [E|Hne].
        -- right. exists cur. subst fin. split; assumption.
        -- rewrite (Advance_fill it ctx t cur fin p pc) in HA by assumption.
           discriminate HA.
    + intros H. exists it, ctx. apply Hfalse. exact H.
  - exact Hfalse.
  - intros Hn. destruct (Htrue Hn) as (t & cur & fin & p & pc & Ht & Hc & Hf & Hp & Hl & Hne & HA).
    exists t, cur, fin, p, pc. repeat split; try assumption.
    + cbn. symmetry. exact Hp.
    + cbn [with_pool GetMemoryPool]. apply load_store_pc.
      eapply load_pc_bound; eassumption.
Qed.

Lemma Advance_preserves_ready (it it' : TableVectorIterator)
    (ctx ctx' : ExecutionContext) (b : bool) :
  Ready it ctx ->
  Advance it ctx = Returns (b, it', ctx') ->
  Ready it' ctx' /\ GetAccessor ctx' = GetAccessor ctx /\
  pool_log (GetMemoryPool ctx') = pool_log (GetMemoryPool ctx) /\
  length (pool_cells (GetMemoryPool ctx')) = length (pool_cells (GetMemoryPool ctx)) /\
  buffer_ it' = buffer_ it.
Proof.
  intros HR HA. pose proof HR as HR'.
  destruct HR' as [Hi (t & cur & fin & p & pc & Ht & Hc & Hf & Hp & Hb & Hl)].
  destruct (Nat.eq_dec cur fin) as [E|Hne].
  - subst fin. rewrite Advance_converged in HA.
    + inversion HA; subst b it' ctx'. repeat split; try reflexivity; try assumption.
      exists t, cur, cur, p, pc. repeat split; assumption.
    + right. exact HR.
    + exists cur. split; assumption.
  - rewrite (Advance_fill it ctx t cur fin p pc) in HA by assumption.
    inversion HA; subst b it' ctx'. clear HA.
    repeat split; try reflexivity; try assumption.
    + exists t, (fst (RangeScan t cur fin pc)), fin, p, (snd (RangeScan t cur fin pc)).
      repeat split; try assumption.
      cbn [with_pool GetMemoryPool]. apply load_store_pc.
      eapply load_pc_bound; eassumption.
    + cbn. apply length_alter.
Qed.

Lemma Reset_preserves_ready (it : TableVectorIterator) (ctx : ExecutionContext) :
  Ready it ctx -> exists it', Reset it = Returns it' /\ Ready it' ctx.
Proof.
  intros [Hi (t & cur & fin & p & pc & Ht & Hc & Hf & Hp & Hb & Hl)].
  unfold Reset. rewrite Hi, Ht. cbn.
  eexists. split; [reflexivity|]. split; [exact Hi|].
  exists t, (beginAt t (start_block_idx_ it)), fin, p, pc.
  repeat split; assumption.
Qed.

Lemma Reset_not_initialized (it : TableVectorIterator) :
  initialized_ it = false -> Reset it = Returns it.
Proof. intros H. unfold Reset. rewrite H. reflexivity. Qed.

(** ** Table resolution at the parallel entry point *)

(** C5. When the catalog does not resolve the table identifier,
    [ParallelScan] returns false at once and leaves the world as it was: no
    task has run, no iterator was built, the pool and the thread states
    are untouched. *)
Theorem ParallelScan_unresolved {QS TS : Type} (V : nat) (sched : Scheduler)
    (table_oid : Z) (query_state : QS) (scan_fn : @ScanFn QS TS) (w : World) :
  GetTable (w_ctx w) table_oid = None ->
  ParallelScan V sched table_oid query_state scan_fn w = Returns (false, w).
Proof.
  intros H. unfold ParallelScan. rewrite H. reflexivity.
Qed.

(** ** [Init] *)

(** C10. [Init] returns true whenever it returns (a table that does not
    resolve stops the process at the assertion instead), so no call of a
    scan task ever leaves through the branch taken when [Init] reports
    failure. *)
Theorem Init_never_false :
  (forall (V : nat) (it it' : TableVectorIterator) (ctx ctx' : ExecutionContext) (b : bool),
      Init V it ctx = Returns (b, it', ctx') -> b = true) /\
  (forall (V : nat) (it : TableVectorIterator) (ctx : ExecutionContext),
      GetTable ctx (table_oid_ it) = None -> Init V it ctx = Fatal AssertionFailure) /\
  (forall (QS TS : Type) (V : nat) (task : @ScanTask QS TS) (block_range : blocked_range)
          (worker : nat) (w w' : World),
      ScanTask_call V task block_range worker w <> Returns (InitFailed, w')).
Proof.
  assert (H1 : forall V it it' ctx ctx' b,
             Init V it ctx = Returns (b, it', ctx') -> b = true).
  { intros V it it' ctx ctx' b H. unfold Init in H.
    destruct (GetTable ctx (table_oid_ it)); [|discriminate].
    cbn in H. inversion H. reflexivity. }
  split; [exact H1|]. split.
  - intros V it ctx H. unfold Init. rewrite H. reflexivity.
  - intros QS TS V task r worker w w' H. unfold ScanTask_call in H.
    destruct (Init V (task_iterator task r) (w_ctx w)) as [[[b it1] ctx1]| |] eqn:E;
      cbn in H; try discriminate.
    rewrite (H1 _ _ _ _ _ _ E) in H. cbn in H.
    destruct (scanner_ task (query_state_ task) _ it1 ctx1) as [[[ts it2] ctx2]| |];
      cbn in H; try discriminate.
    destruct (Destroy it2 ctx2); cbn in H; discriminate.
Qed.

(** C8. An iterator whose column request list is empty resolves its column
    set, in [Init], to the table's full natural column set in storage
    order, and lays the batch out for it; the projection is empty only for
    a table that has no column at all. *)
Theorem Init_projects_all_columns (V : nat) (it : TableVectorIterator)
    (ctx : ExecutionContext) (t : SqlTable) :
  col_oids_ it = [] ->
  GetTable ctx (table_oid_ it) = Some t ->
  exists it' ctx' p pc,
    Init V it ctx = Returns (true, it', ctx') /\
    col_oids_ it' = GetAllColOid t /\
    projected_columns_ it' = Some p /\
    load_pc (GetMemoryPool ctx') p = Some pc /\
    pc_col_oids pc = GetAllColOid t /\
    (tbl_columns t <> [] -> col_oids_ it' <> []).
Proof.
  intros Hempty Ht.
  destruct (Init_returns V it ctx t Ht)
    as (it' & ctx' & HI & _ & _ & _ & _ & _ & _ & _ & _ & Hcols & pc & Hl & _ & Hpc & Hp).
  rewrite Hempty in Hcols.
  exists it', ctx', (length (pool_cells (GetMemoryPool ctx))), pc.
  repeat split; try assumption.
  - rewrite Hpc. exact Hcols.
  - intros Hne. rewrite Hcols. unfold GetAllColOid.
    destruct (tbl_columns t); [contradiction|discriminate].
Qed.

(** C7. For a table with no block to scan (its block count is zero, or the
    start cursor equals the end cursor), [Init] succeeds, the first
    [Advance] returns false and leaves the iterator as it is, and so does
    every later call: no [Advance] succeeds. *)
Theorem empty_range_yields_nothing (V : nat) (it : TableVectorIterator)
    (ctx : ExecutionContext) (t : SqlTable) :
  GetTable ctx (table_oid_ it) = Some t ->
  GetBlockListSize t = 0 \/
    beginAt t (start_block_idx_ it) = endAt t (end_block_idx_ it) ->
  exists it' ctx',
    Init V it ctx = Returns (true, it', ctx') /\
    Advance it' ctx' = Returns (false, it', ctx') /\
    forall n, advance_calls n it' ctx' = Returns (repeat false n).
Proof.
  intros Ht Hempty.
  assert (Heq : beginAt t (start_block_idx_ it) = endAt t (end_block_idx_ it)).
  { destruct Hempty as [H0|H]; [|exact H].
    unfold beginAt, endAt, block_position, rows_before, GetBlockListSize in *.
    destruct (tbl_blocks t); [|simpl in H0; lia].
    rewrite !take_nil. reflexivity. }
  destruct (Init_returns V it ctx t Ht)
    as (it' & ctx' & HI & HR & _ & _ & _ & _ & _ & Hc & Hf & _).
  assert (HA : Advance it' ctx' = Returns (false, it', ctx')).
  { apply Advance_converged; [right; exact HR|].
    exists (beginAt t (start_block_idx_ it)). rewrite Hc, Hf, Heq. split; reflexivity. }
  exists it', ctx'. repeat split; try assumption.
  induction n as [|n IH]; [reflexivity|].
  cbn [advance_calls]. rewrite HA. cbn. rewrite IH. reflexivity.
Qed.

(** ** The table identifier inside a scan task *)

Lemma wrap16_differs (z : Z) : 2 ^ 16 <= z -> wrap16 z <> z.
Proof.
  intros H E. unfold wrap16 in E.
  pose proof (Z.mod_pos_bound z (2 ^ 16) ltac:(lia)). lia.
Qed.

(** C9. [ParallelScan] hands its 32-bit table identifier to the scan task,
    which keeps it in 16 bits: for an identifier of [2^16] or more, the
    iterator of every partition is built with the identifier modulo
    [2^16], which is another identifier than the one resolved; a task
    stops at the assertion when that one does not resolve, whatever the
    resolved table is. *)
Theorem ScanTask_truncates_table_id {QS TS : Type} (table_oid : Z)
    (query_state : QS) (scan_fn : @ScanFn QS TS) :
  2 ^ 16 <= table_oid < 2 ^ 32 ->
  (forall (V : nat) (sched : Scheduler) (w : World) (t : SqlTable),
      GetTable (w_ctx w) table_oid = Some t ->
      ParallelScan V sched table_oid query_state scan_fn w =
        (w' ← run_tasks (ScanTask_body V (ScanTask_new table_oid query_state scan_fn))
               sched
               (scan_partition sched
                  {| my_begin := 0; my_end := wrap32 (GetBlockListSize t);
                     my_grainsize := 3 |}) w;
         Returns (true, w'))) /\
  (forall block_range : blocked_range,
      table_oid_ (task_iterator (ScanTask_new table_oid query_state scan_fn) block_range)
        = table_oid mod 2 ^ 16 /\
      table_oid_ (task_iterator (ScanTask_new table_oid query_state scan_fn) block_range)
        <> table_oid) /\
  (forall (V : nat) (block_range : blocked_range) (worker : nat) (w : World),
      GetTable (w_ctx w) (table_oid mod 2 ^ 16) = None ->
      ScanTask_call V (ScanTask_new table_oid query_state scan_fn) block_range worker w
        = Fatal AssertionFailure).
Proof.
  intros Hrange. split; [|split].
  - intros V sched w t Ht. unfold ParallelScan. rewrite Ht. reflexivity.
  - intros r. split; [reflexivity|].
    cbn. apply wrap16_differs. lia.
  - intros V r worker w Hnone. unfold ScanTask_call.
    replace (Init V _ (w_ctx w)) with (@Fatal (bool * TableVectorIterator * ExecutionContext) AssertionFailure);
      [reflexivity|].
    symmetry. unfold Init. cbn [task_iterator ScanTask_new table_id_ TableVectorIterator_range table_oid_].
    unfold wrap16. rewrite Hnone. reflexivity.
Qed.

(** ** The scan partitioner *)

Lemma chained_le (rs : list blocked_range) : forall lo hi, chained lo hi rs -> lo <= hi.
Proof.
  induction rs as [|r rs IH]; simpl; intros lo hi H.
  - lia.
  - destruct H as (Hb & Hlt & Hrest). specialize (IH _ _ Hrest). lia.
Qed.

Lemma chained_app (xs ys : list blocked_range) :
  forall lo mid hi, chained lo mid xs -> chained mid hi ys -> chained lo hi (xs ++ ys).
Proof.
  induction xs as [|x xs IH]; simpl; intros lo mid hi Hx Hy.
  - subst. exact Hy.
  - destruct Hx as (Hb & Hlt & Hrest). repeat split; try assumption.
    eapply IH; eassumption.
Qed.

Lemma chained_within (rs : list blocked_range) :
  forall lo hi r, chained lo hi rs -> In r rs ->
                  lo <= my_begin r /\ my_begin r < my_end r /\ my_end r <= hi.
Proof.
  induction rs as [|x rs IH]; simpl; intros lo hi r H Hin; [contradiction|].
  destruct H as (Hb & Hlt & Hrest). pose proof (chained_le _ _ _ Hrest).
  destruct Hin as [->|Hin].
  - lia.
  - specialize (IH _ _ _ Hrest Hin). lia.
Qed.

Lemma chained_cover (rs : list blocked_range) :
  forall lo hi, chained lo hi rs ->
    forall i, (exists r, In r rs /\ my_begin r <= i < my_end r) <-> lo <= i < hi.
Proof.
  induction rs as [|x rs IH]; simpl; intros lo hi H i.
  - split; [intros (r & [] & _)|lia].
  - destruct H as (Hb & Hlt & Hrest). pose proof (chained_le _ _ _ Hrest). split.
    + intros (r & [->|Hin] & Hi); [lia|].
      assert (my_end x <= i < hi) by (apply (IH _ _ Hrest); eauto). lia.
    + intros Hi. destruct (Z_lt_ge_dec i (my_end x)) as [Hl|Hg].
      * exists x. split; [left; reflexivity|lia].
      * destruct (proj2 (IH _ _ Hrest i) ltac:(lia)) as (r & Hin & Hr).
        exists r. split; [right; exact Hin|exact Hr].
Qed.

Lemma chained_ordered (rs : list blocked_range) :
  forall lo hi, chained lo hi rs ->
    forall (i j : nat) (ri rj : blocked_range),
      (i < j)%nat -> rs !! i = Some ri -> rs !! j = Some rj ->
      my_end ri <= my_begin rj.
Proof.
  induction rs as [|x rs IH]; intros lo hi H i j ri rj Hij Hi Hj.
  - discriminate Hi.
  - destruct H as (Hb & Hlt & Hrest).
    destruct j as [|j]; [lia|]. cbn in Hj.
    destruct i as [|i].
    + cbn in Hi. inversion Hi; subst ri.
      assert (Hin : In rj rs).
      { apply list_elem_of_In. eapply list_elem_of_lookup_2. exact Hj. }
      pose proof (chained_within _ _ _ _ Hrest Hin). lia.
    + cbn in Hi. eapply (IH _ _ Hrest i j); [lia|eassumption|eassumption].
Qed.

Lemma split_halves (r : blocked_range) :
  0 < my_grainsize r -> is_divisible r = true ->
  let '(lo, hi) := do_split r in
  my_begin lo = my_begin r /\ my_end lo = my_begin hi /\ my_end hi = my_end r /\
  my_grainsize lo = my_grainsize r /\ my_grainsize hi = my_grainsize r /\
  (my_grainsize r + 1) / 2 <= range_size lo /\
  (my_grainsize r + 1) / 2 <= range_size hi /\
  0 < range_size lo < range_size r /\ 0 < range_size hi < range_size r.
Proof.
  intros Hg Hd. unfold is_divisible, range_size in Hd. apply Z.ltb_lt in Hd.
  unfold do_split, range_size; cbn.
  set (s := my_end r - my_begin r) in *.
  assert (H1 : (my_grainsize r + 1) / 2 <= s / 2) by (apply Z.div_le_mono; lia).
  assert (H2 : 0 < (my_grainsize r + 1) / 2) by (apply Z.div_str_pos; lia).
  pose proof (Z.div_mod s 2 ltac:(lia)) as Hdm.
  pose proof (Z.mod_pos_bound s 2 ltac:(lia)) as Hm.
  repeat split; try lia.
Qed.

Lemma subranges_sound (sched : Scheduler) (g : Z) (fuel : nat) :
  forall r : blocked_range,
    0 < g -> my_grainsize r = g -> my_begin r < my_end r ->
    chained (my_begin r) (my_end r) (subranges fuel sched r) /\
    Forall (fun x => Z.min (range_size r) ((g + 1) / 2) <= range_size x)
           (subranges fuel sched r).
Proof.
  induction fuel as [|fuel IH]; intros r Hg Hgr Hne.
  - simpl. repeat split; try assumption. constructor; [lia|constructor].
  - cbn [subranges].
    destruct (is_divisible r) eqn:Hd; cbn [andb];
      [destruct (sched_split sched r)|].
    + pose proof (split_halves r ltac:(lia) Hd) as Hs.
      destruct (do_split r) as [lo hi].
      destruct Hs as (Hb & Hm & He & Hgl & Hgh & Hl & Hh & Hsl & Hsh).
      unfold range_size in Hsl, Hsh.
      destruct (IH lo Hg ltac:(congruence) ltac:(lia)) as (Hcl & Hfl).
      destruct (IH hi Hg ltac:(congruence) ltac:(lia)) as (Hch & Hfh).
      split.
      * eapply chained_app; [rewrite <- Hb; exact Hcl|].
        rewrite Hm, <- He. exact Hch.
      * rewrite Hgr in Hl, Hh. apply Forall_app. split.
        -- eapply Forall_impl; [exact Hfl|]. cbn. intros x Hx. lia.
        -- eapply Forall_impl; [exact Hfh|]. cbn. intros x Hx. lia.
    + simpl. repeat split; try assumption. constructor; [lia|constructor].
    + simpl. repeat split; try assumption. constructor; [lia|constructor].
Qed.

(** With the fuel [scan_partition] gives, a piece is never left unsplit for
    lack of fuel: the pieces are the same for any larger fuel. *)
Lemma subranges_fuel (sched : Scheduler) (fuel : nat) :
  forall (r : blocked_range) (more : nat),
    0 < my_grainsize r -> range_size r <= Z.of_nat fuel ->
    subranges (fuel + more) sched r = subranges fuel sched r.
Proof.
  induction fuel as [|fuel IH]; intros r more Hg Hsz.
  - destruct more as [|more]; [reflexivity|].
    cbn [Nat.add subranges].
    replace (is_divisible r) with false; [reflexivity|].
    symmetry. unfold is_divisible. apply Z.ltb_ge. lia.
  - cbn [Nat.add subranges].
    destruct (is_divisible r) eqn:Hd; cbn [andb]; [|reflexivity].
    destruct (sched_split sched r); [|reflexivity].
    pose proof (split_halves r Hg Hd) as Hs.
    destruct (do_split r) as [lo hi].
    destruct Hs as (_ & _ & _ & Hgl & Hgh & _ & _ & Hsl & Hsh).
    rewrite (IH lo more), (IH hi more) by lia. reflexivity.
Qed.

(** C3, as the code has it.  For every block count [B] and grain size [g],
    whatever the scheduler chooses to split, the pieces of [[0, B)] are
    non-empty, ordered, pairwise disjoint and cover exactly [[0, B)], and
    every piece, the last included, is at least [min B ((g + 1) / 2)] long:
    a divisible range is cut in halves, so a piece can be as short as half
    the grain size, rounded up. *)
Theorem scan_partition_sound (sched : Scheduler) (B g : Z) :
  0 <= B -> 0 < g ->
  let rs := scan_partition sched (block_range_of B g) in
  (forall i, (exists r, In r rs /\ my_begin r <= i < my_end r) <-> 0 <= i < B) /\
  (forall (i j : nat) (ri rj : blocked_range),
      (i < j)%nat -> rs !! i = Some ri -> rs !! j = Some rj ->
      my_end ri <= my_begin rj) /\
  (forall r, In r rs -> my_begin r < my_end r) /\
  Forall (fun r => Z.min B ((g + 1) / 2) <= range_size r) rs.
Proof.
  intros HB Hg. unfold scan_partition, range_empty. cbn [block_range_of my_begin my_end].
  destruct (Z.ltb_spec 0 B) as [Hpos|Hzero]; cbn [negb].
  - destruct (subranges_sound sched g (Z.to_nat (range_size (block_range_of B g)))
                (block_range_of B g) Hg eq_refl Hpos) as (Hch & Hall).
    cbn [block_range_of my_begin my_end] in Hch.
    cbv zeta. split; [|split; [|split]].
    + apply (chained_cover _ _ _ Hch).
    + apply (chained_ordered _ _ _ Hch).
    + intros r Hin. apply (chained_within _ _ _ _ Hch Hin).
    + unfold range_size at 1 in Hall. cbn [block_range_of my_begin my_end] in Hall.
      replace (B - 0) with B in Hall by lia. exact Hall.
  - cbv zeta. split; [|split; [|split]].
    + intros i. split; [intros (r & [] & _)|lia].
    + intros i j ri rj _ Hi. discriminate Hi.
    + intros r [].
    + constructor.
Qed.

(** C3, as the spec has it, fails: with four blocks and grain size three
    the range is divisible, and its two halves are two blocks long each. *)
Lemma grain_not_respected :
  ~ (forall (sched : Scheduler) (B g : Z),
        0 <= B -> 0 < g ->
        grain_respected g (scan_partition sched (block_range_of B g))).
Proof.
  intros H.
  assert (H4 : 0 <= 4) by lia. assert (H3 : 0 < 3) by lia.
  specialize (H eager 4 3 H4 H3 0%nat
                {| my_begin := 0; my_end := 2; my_grainsize := 3 |} eq_refl).
  assert (Hlen : (1 < 2)%nat) by lia.
  specialize (H Hlen). unfold range_size in H. cbn in H. lia.
Qed.

(** ** Allocation and release of the batch buffer *)

Lemma Init_holds (V : nat) (it : TableVectorIterator) (ctx : ExecutionContext)
    (t : SqlTable) :
  GetTable ctx (table_oid_ it) = Some t ->
  exists it' ctx' p size,
    Init V it ctx = Returns (true, it', ctx') /\
    Ready it' ctx' /\ Holds it' ctx' p size /\
    pool_log (GetMemoryPool ctx') = pool_log (GetMemoryPool ctx) ++ [EvAllocate p size].
Proof.
  intros Ht. unfold Init. rewrite Ht.
  set (cols := match col_oids_ it with [] => GetAllColOid t | _ :: _ => col_oids_ it end).
  set (pc_init := InitializerForProjectedColumns t cols V).
  pose proof (load_after_allocate (GetMemoryPool ctx) (ProjectedColumnsSize pc_init)
                8 false (InitializeColumns pc_init)) as Hload.
  unfold AllocateAligned in *. cbv zeta in *. cbn [fst snd] in Hload.
  eexists _, _, (length (pool_cells (GetMemoryPool ctx))), (ProjectedColumnsSize pc_init).
  split; [reflexivity|]. split; [|split].
  - split; [reflexivity|].
    exists t, (beginAt t (start_block_idx_ it)), (endAt t (end_block_idx_ it)),
      (length (pool_cells (GetMemoryPool ctx))), (InitializeColumns pc_init).
    repeat split; try reflexivity. exact Hload.
  - split; [reflexivity|]. split; [reflexivity|].
    exists (InitializeColumns pc_init). split; [exact Hload|reflexivity].
  - reflexivity.
Qed.

Lemma Advance_preserves_holds (it it' : TableVectorIterator)
    (ctx ctx' : ExecutionContext) (b : bool) (p size : nat) :
  Ready it ctx -> Holds it ctx p size ->
  Advance it ctx = Returns (b, it', ctx') ->
  Holds it' ctx' p size.
Proof.
  intros HR (Hp & Hb & pc & Hl & Hs) HA.
  destruct HR as [Hi (t & cur & fin & p' & pc' & Ht & Hc & Hf & Hp' & Hb' & Hl')].
  assert (p' = p) by congruence. subst p'.
  assert (pc' = pc) by congruence. subst pc'.
  destruct (Nat.eq_dec cur fin) as [E|Hne].
  - subst fin. rewrite Advance_converged in HA.
    + inversion HA; subst b it' ctx'. repeat split; try assumption.
      exists pc. split; assumption.
    + right. split; [assumption|]. exists t, cur, cur, p, pc. repeat split; assumption.
    + exists cur. split; assumption.
  - rewrite (Advance_fill it ctx t cur fin p pc) in HA by assumption.
    inversion HA; subst b it' ctx'. clear HA.
    repeat split; try assumption.
    exists (snd (RangeScan t cur fin pc)). split.
    + cbn [with_pool GetMemoryPool]. apply load_store_pc.
      eapply load_pc_bound; eassumption.
    + exact Hs.
Qed.

Lemma Destroy_releases (it : TableVectorIterator) (ctx : ExecutionContext)
    (p size : nat) :
  Holds it ctx p size ->
  Destroy it ctx =
    Returns (with_pool ctx (Deallocate (GetMemoryPool ctx) (Some p) size)).
Proof.
  intros (Hp & Hb & pc & Hl & Hs). unfold Destroy.
  rewrite Hp. cbn. rewrite Hl. cbn. rewrite Hb, Hs. reflexivity.
Qed.

(** X1. After a completed [Init], the destructor releases what [Init]
    allocated: one allocation, one release, same buffer, same size. *)
Lemma Init_Destroy_matched (V : nat) (it : TableVectorIterator)
    (ctx : ExecutionContext) (t : SqlTable) :
  GetTable ctx (table_oid_ it) = Some t ->
  exists it' ctx' ctx'' p size,
    Init V it ctx = Returns (true, it', ctx') /\
    Destroy it' ctx' = Returns ctx'' /\
    pool_log (GetMemoryPool ctx'') =
      pool_log (GetMemoryPool ctx) ++ [EvAllocate p size; EvDeallocate (Some p) size].
Proof.
  intros Ht.
  destruct (Init_holds V it ctx t Ht) as (it' & ctx' & p & size & HI & _ & HH & Hlog).
  exists it', ctx', (with_pool ctx' (Deallocate (GetMemoryPool ctx') (Some p) size)), p, size.
  split; [exact HI|]. split; [apply Destroy_releases; exact HH|].
  cbn. rewrite Hlog, <- app_assoc. reflexivity.
Qed.

(** C4, at an iterator that is destroyed without [Init]: nothing was
    allocated, and the destructor, which is not guarded by [initialized_],
    goes through the null [projected_columns_] on its way to [Deallocate]. *)
Theorem Destroy_without_Init (table_oid : Z) (col_oids : list Z) (num_oids : nat)
    (start_block_idx end_block_idx : Z) (ctx : ExecutionContext) :
  initialized_
    (TableVectorIterator_range table_oid col_oids num_oids start_block_idx end_block_idx)
    = false /\
  Destroy
    (TableVectorIterator_range table_oid col_oids num_oids start_block_idx end_block_idx)
    ctx = Fatal NullDereference.
Proof. split; reflexivity. Qed.

(** ** The parallel scan on a table identifier of more than 16 bits *)

(** C6, at table identifier 65536: the table resolves and has one block,
    the task looks identifier 0 up, which is no table, and the process stops
    at the assertion of [Init]; [ParallelScan] does not return. *)
Theorem ParallelScan_stops_on_wide_oid (sched : Scheduler) (fuel : nat) :
  GetTable ctx_small 65536 = Some table_b /\
  ParallelScan 2048 sched 65536 tt (scanner fuel) (world_of ctx_small)
    = Fatal AssertionFailure.
Proof. split; reflexivity. Qed.

(** C2, at table identifier 65537: the table has one row, and the parallel
    scan counts the two rows of the first block of table 1. *)
Theorem parallel_count_differs_on_wide_oid (sched : Scheduler) :
  sequential_count 2048 100 65537 ctx_small = Returns 1 /\
  parallel_count 2048 100 sched 65537 ctx_small = Returns (true, 2).
Proof. split; vm_compute; reflexivity. Qed.

(** ** The parallel scan on a table identifier of at most 16 bits *)

Lemma wrap16_small (z : Z) : 0 <= z < 2 ^ 16 -> wrap16 z = z.
Proof. intros H. unfold wrap16. apply Z.mod_small. exact H. Qed.

Lemma wrap32_small (z : Z) : 0 <= z < 2 ^ 32 -> wrap32 z = z.
Proof. intros H. unfold wrap32. apply Z.mod_small. exact H. Qed.

Lemma wrap32_range (z : Z) : 0 <= wrap32 z < 2 ^ 32.
Proof. unfold wrap32. apply Z.mod_pos_bound. lia. Qed.

Lemma wrap32_add_l (a b : Z) : wrap32 (wrap32 a + b) = wrap32 (a + b).
Proof. unfold wrap32. apply Zplus_mod_idemp_l. Qed.

Lemma Destroy_ready (it : TableVectorIterator) (ctx : ExecutionContext) :
  Ready it ctx ->
  exists ctx', Destroy it ctx = Returns ctx' /\ GetAccessor ctx' = GetAccessor ctx.
Proof.
  intros [_ (t & cur & fin & p & pc & _ & _ & _ & Hp & Hb & Hl)].
  exists (with_pool ctx (Deallocate (GetMemoryPool ctx) (Some p) (Size pc))).
  split; [|reflexivity].
  apply Destroy_releases.
  repeat split; try assumption. exists pc. split; [assumption|reflexivity].
Qed.

Lemma ScanTask_call_returns {QS TS : Type} (V : nat) (task : @ScanTask QS TS)
    (r : blocked_range) (worker : nat) (w : World) (t : SqlTable) :
  GetTable (w_ctx w) (table_id_ task) = Some t ->
  well_behaved (scanner_ task) ->
  exists w',
    ScanTask_call V task r worker w = Returns (Scanned, w') /\
    GetAccessor (w_ctx w') = GetAccessor (w_ctx w) /\
    w_tasks w' = w_tasks w ++ [r].
Proof.
  intros Ht Hfn. unfold ScanTask_call.
  destruct (Init_returns V (task_iterator task r) (w_ctx w) t Ht)
    as (it1 & ctx1 & HI & HR & Hacc & _).
  rewrite HI. cbn.
  destruct (Hfn (query_state_ task)
              (AccessThreadStateOfCurrentThread (w_thread_states w) worker) it1 ctx1 HR)
    as (ts' & it2 & ctx2 & Hcall & HR2 & Hacc2).
  rewrite Hcall. cbn.
  destruct (Destroy_ready it2 ctx2 HR2) as (ctx3 & HD & Hacc3).
  rewrite HD. cbn.
  eexists. split; [reflexivity|]. cbn. split; [congruence|reflexivity].
Qed.

Lemma run_tasks_return {QS TS : Type} (V : nat) (task : @ScanTask QS TS)
    (sched : Scheduler) (t : SqlTable) (pieces : list blocked_range) :
  well_behaved (scanner_ task) ->
  forall w : World,
    GetTable (w_ctx w) (table_id_ task) = Some t ->
    exists w',
      run_tasks (ScanTask_body V task) sched pieces w = Returns w' /\
      GetAccessor (w_ctx w') = GetAccessor (w_ctx w) /\
      w_tasks w' = w_tasks w ++ pieces.
Proof.
  intros Hfn. induction pieces as [|r rest IH]; intros w Ht.
  - exists w. cbn. rewrite app_nil_r. repeat split; reflexivity.
  - cbn [run_tasks].
    destruct (ScanTask_call_returns V task r (sched_worker sched r) w t Ht Hfn)
      as (w1 & Hcall & Hacc & Htasks).
    assert (Hbody : ScanTask_body V task r (sched_worker sched r) w = Returns w1).
    { unfold ScanTask_body. rewrite Hcall. reflexivity. }
    rewrite Hbody. cbn [mbind Outcome_bind].
    assert (Ht1 : GetTable (w_ctx w1) (table_id_ task) = Some t).
    { unfold GetTable in *. rewrite Hacc. exact Ht. }
    destruct (IH w1 Ht1) as (w' & Hrun & Hacc' & Htasks').
    exists w'. split; [exact Hrun|]. split; [congruence|].
    rewrite Htasks', Htasks, <- app_assoc. reflexivity.
Qed.

(** When the table resolves, the identifier the tasks use (the low 16 bits)
    resolves too, and the callback returns, [ParallelScan] runs one task per
    piece and returns true. *)
Lemma ParallelScan_returns_true {QS TS : Type} (V : nat) (sched : Scheduler)
    (table_oid : Z) (query_state : QS) (scan_fn : @ScanFn QS TS)
    (w : World) (t t16 : SqlTable) :
  GetTable (w_ctx w) table_oid = Some t ->
  GetTable (w_ctx w) (wrap16 table_oid) = Some t16 ->
  well_behaved scan_fn ->
  exists w',
    ParallelScan V sched table_oid query_state scan_fn w = Returns (true, w') /\
    w_tasks w' =
      w_tasks w ++ scan_partition sched (block_range_of (wrap32 (GetBlockListSize t)) 3).
Proof.
  intros Ht Ht16 Hfn. unfold ParallelScan. rewrite Ht. unfold parallel_for.
  destruct (run_tasks_return V (ScanTask_new table_oid query_state scan_fn) sched t16
              (scan_partition sched (block_range_of (wrap32 (GetBlockListSize t)) 3))
              Hfn w) as (w' & Hrun & _ & Htasks).
  { cbn [ScanTask_new table_id_]. exact Ht16. }
  unfold block_range_of in Hrun. rewrite Hrun. cbn.
  exists w'. split; [reflexivity|exact Htasks].
Qed.

(** In particular for every table identifier that fits 16 bits. *)
Lemma ParallelScan_returns_true_narrow {QS TS : Type} (V : nat) (sched : Scheduler)
    (table_oid : Z) (query_state : QS) (scan_fn : @ScanFn QS TS)
    (w : World) (t : SqlTable) :
  0 <= table_oid < 2 ^ 16 ->
  GetTable (w_ctx w) table_oid = Some t ->
  well_behaved scan_fn ->
  exists w',
    ParallelScan V sched table_oid query_state scan_fn w = Returns (true, w').
Proof.
  intros Hoid Ht Hfn.
  destruct (ParallelScan_returns_true V sched table_oid query_state scan_fn w t t Ht)
    as (w' & H & _); [rewrite wrap16_small by exact Hoid; exact Ht|exact Hfn|].
  exists w'. exact H.
Qed.

(** ** Counting rows: one iterator *)

Lemma rows_before_mono (t : SqlTable) (n m : nat) :
  (n <= m)%nat -> (rows_before t n <= rows_before t m)%nat.
Proof.
  intros H. unfold rows_before.
  rewrite <- (take_drop n (take m (tbl_blocks t))).
  rewrite take_take, Nat.min_l by exact H.
  rewrite concat_app, length_app. lia.
Qed.

Lemma rows_before_all (t : SqlTable) (n : nat) :
  (length (tbl_blocks t) <= n)%nat -> rows_before t n = total_rows t.
Proof.
  intros H. unfold rows_before, total_rows. rewrite take_ge by exact H. reflexivity.
Qed.

Lemma rows_before_total (t : SqlTable) (n : nat) :
  (rows_before t n <= total_rows t)%nat.
Proof.
  rewrite <- (rows_before_all t (Nat.max n (length (tbl_blocks t)))) by lia.
  apply rows_before_mono. lia.
Qed.

Lemma block_position_mono (t : SqlTable) (a b : Z) :
  a <= b -> (block_position t a <= block_position t b)%nat.
Proof. intros H. unfold block_position. apply rows_before_mono. lia. Qed.

Lemma block_position_total (t : SqlTable) (a : Z) :
  (block_position t a <= total_rows t)%nat.
Proof. apply rows_before_total. Qed.

Lemma block_position_end (t : SqlTable) (b : Z) :
  GetBlockListSize t <= b -> block_position t b = total_rows t.
Proof.
  intros H. unfold block_position. apply rows_before_all.
  unfold GetBlockListSize in *. lia.
Qed.

Lemma block_position_zero (t : SqlTable) : block_position t 0 = 0%nat.
Proof.
  unfold block_position, rows_before.
  replace (Z.to_nat (Z.min 0 (GetBlockListSize t))) with 0%nat.
  - reflexivity.
  - unfold GetBlockListSize. lia.
Qed.

Lemma RangeScan_fill (t : SqlTable) (cur fin : nat) (pc : ProjectedColumns) :
  (cur < fin)%nat -> (fin <= total_rows t)%nat -> (0 < pc_max_tuples pc)%nat ->
  let n := Nat.min (pc_max_tuples pc) (fin - cur) in
  (1 <= n)%nat /\
  fst (RangeScan t cur fin pc) = (cur + n)%nat /\
  NumTuples (snd (RangeScan t cur fin pc)) = n /\
  pc_max_tuples (snd (RangeScan t cur fin pc)) = pc_max_tuples pc.
Proof.
  intros Hlt Hfin Hmax n. unfold RangeScan, NumTuples, total_rows in *. cbn.
  fold n. repeat split; try lia.
  rewrite length_take, length_drop. lia.
Qed.

Lemma count_rows_all (pool : MemoryPool) (p : nat) (pc : ProjectedColumns) (n : nat) :
  load_pc pool p = Some pc ->
  forall (idx : nat) (c : Z),
    (idx + n)%nat = NumTuples pc -> 0 <= c < 2 ^ 32 ->
    count_rows n {| pci_columns := Some p; pci_idx := idx |} pool c =
      ({| pci_columns := Some p; pci_idx := NumTuples pc |}, wrap32 (c + Z.of_nat n)).
Proof.
  intros Hl. induction n as [|n IH]; intros idx c Hidx Hc.
  - cbn. rewrite Z.add_0_r, wrap32_small by exact Hc.
    replace idx with (NumTuples pc) by lia. reflexivity.
  - cbn [count_rows]. unfold PciHasNext. cbn [pci_columns pci_idx]. rewrite Hl.
    replace (Nat.ltb idx (NumTuples pc)) with true
      by (symmetry; apply Nat.ltb_lt; lia).
    unfold PciAdvance. cbn [pci_columns pci_idx].
    rewrite IH by (try apply wrap32_range; lia).
    rewrite wrap32_add_l. f_equal. f_equal. lia.
Qed.

Lemma scanner_counts (fuel : nat) :
  forall (it : TableVectorIterator) (ctx : ExecutionContext) (c : Z)
         (t : SqlTable) (cur fin p : nat) (pc : ProjectedColumns),
    initialized_ it = true -> table_ it = Some t ->
    iter_ it = Some cur -> iter_end_ it = Some fin ->
    projected_columns_ it = Some p -> buffer_ it = Some p ->
    load_pc (GetMemoryPool ctx) p = Some pc ->
    (0 < pc_max_tuples pc)%nat ->
    (cur <= fin)%nat -> (fin <= total_rows t)%nat -> (fin - cur < fuel)%nat ->
    0 <= c < 2 ^ 32 ->
    exists it' ctx',
      scanner fuel tt c it ctx = Returns (wrap32 (c + Z.of_nat (fin - cur)), it', ctx') /\
      Ready it' ctx' /\ GetAccessor ctx' = GetAccessor ctx.
Proof.
  induction fuel as [|fuel IH];
    intros it ctx c t cur fin p pc Hi Ht Hc Hf Hp Hb Hl Hmax Hle Hfin Hfuel Hrange;
    [lia|].
  assert (HR : Ready it ctx).
  { split; [exact Hi|]. exists t, cur, fin, p, pc. repeat split; assumption. }
  cbn [scanner].
  destruct (Nat.eq_dec cur fin) as [E|Hne].
  - subst fin. rewrite Advance_converged.
    + cbn. exists it, ctx. rewrite Nat.sub_diag, Z.add_0_r, wrap32_small by exact Hrange.
      repeat split; try reflexivity; apply HR.
    + right. exact HR.
    + exists cur. split; assumption.
  - rewrite (Advance_fill it ctx t cur fin p pc) by assumption.
    cbn [mbind Outcome_bind].
    destruct (RangeScan_fill t cur fin pc ltac:(lia) Hfin Hmax) as (Hn1 & Hcur & Hnum & Hmax').
    set (n := Nat.min (pc_max_tuples pc) (fin - cur)) in *.
    set (filled := RangeScan t cur fin pc) in *.
    assert (Hl' : load_pc (GetMemoryPool
                    (with_pool ctx (store_pc (GetMemoryPool ctx) p (snd filled)))) p
                  = Some (snd filled)).
    { cbn [with_pool GetMemoryPool]. apply load_store_pc.
      eapply load_pc_bound; eassumption. }
    unfold GetProjectedColumnsIterator. cbn [set_pci pci_].
    unfold pci_remaining, SetProjectedColumn. cbn [pci_columns pci_idx].
    rewrite Hl', Nat.sub_0_r.
    rewrite (count_rows_all _ p (snd filled) (NumTuples (snd filled)) Hl' 0%nat c)
      by (try exact Hrange; lia).
    destruct (IH (set_pci
                    (set_pci (set_cursor it (Some (fst filled)))
                       {| pci_columns := Some p; pci_idx := 0 |})
                    {| pci_columns := Some p; pci_idx := NumTuples (snd filled) |})
                 (with_pool ctx (store_pc (GetMemoryPool ctx) p (snd filled)))
                 (wrap32 (c + Z.of_nat (NumTuples (snd filled))))
                 t (fst filled) fin p (snd filled))
      as (it' & ctx' & Hrun & HR' & Hacc); try assumption; try reflexivity;
      try apply wrap32_range; try lia.
    exists it', ctx'. split; [|split; [exact HR'|exact Hacc]].
    rewrite Hrun, wrap32_add_l.
    replace (fin - cur)%nat with (NumTuples (snd filled) + (fin - fst filled))%nat by lia.
    rewrite Nat2Z.inj_add, Z.add_assoc. reflexivity.
Qed.

(** ** Counting rows: the workers' counters *)

Lemma find_state_in_range (l : list (nat * Z)) (w : nat) (x : Z) :
  counters_in_range l -> find_state l w = Some x -> 0 <= x < 2 ^ 32.
Proof.
  unfold counters_in_range. induction l as [|[v s] l IH]; intros Hall Hfind.
  - discriminate Hfind.
  - apply Forall_cons in Hall as [Hs Hall]. cbn in Hfind.
    destruct (Nat.eqb v w).
    + inversion Hfind; subst. exact Hs.
    + apply IH; assumption.
Qed.

Lemma put_state_in_range (l : list (nat * Z)) (w : nat) (s : Z) :
  counters_in_range l -> 0 <= s < 2 ^ 32 -> counters_in_range (put_state l w s).
Proof.
  unfold counters_in_range. induction l as [|[v x] l IH]; intros Hall Hs.
  - cbn. constructor; [exact Hs|constructor].
  - apply Forall_cons in Hall as [Hx Hall]. cbn.
    destruct (Nat.eqb v w); constructor; try assumption.
    apply IH; assumption.
Qed.

Lemma put_state_sum (l : list (nat * Z)) (w : nat) (s : Z) :
  sum_counters (put_state l w s) =
    sum_counters l - default 0 (find_state l w) + s.
Proof.
  induction l as [|[v x] l IH].
  - cbn. lia.
  - cbn. destruct (Nat.eqb v w); cbn.
    + lia.
    + fold (sum_counters (put_state l w s)). fold (sum_counters l). rewrite IH. lia.
Qed.

Lemma aggregate_is_sum (l : list (nat * Z)) :
  forall a, 0 <= a < 2 ^ 32 ->
    fold_left (fun acc c => wrap32 (acc + c)) (map snd l) a = wrap32 (a + sum_counters l).
Proof.
  induction l as [|[v x] l IH]; intros a Ha.
  - cbn. rewrite Z.add_0_r, wrap32_small by exact Ha. reflexivity.
  - cbn. fold (sum_counters l). rewrite IH by apply wrap32_range.
    rewrite wrap32_add_l. f_equal. lia.
Qed.

Lemma ScanTask_counts (V fuel : nat) (task : @ScanTask unit Z) (r : blocked_range)
    (worker : nat) (w : World) (t : SqlTable) :
  scanner_ task = scanner fuel ->
  GetTable (w_ctx w) (table_id_ task) = Some t ->
  (0 < V)%nat -> my_begin r <= my_end r -> (total_rows t < fuel)%nat ->
  counters_in_range (tsc_states (w_thread_states w)) ->
  tsc_init (w_thread_states w) = 0 ->
  exists ctx',
    ScanTask_call V task r worker w =
      Returns (Scanned,
               {| w_ctx := ctx';
                  w_thread_states :=
                    write_thread_state (w_thread_states w) worker
                      (wrap32 (AccessThreadStateOfCurrentThread (w_thread_states w) worker
                               + Z.of_nat (block_position t (my_end r)
                                           - block_position t (my_begin r))));
                  w_tasks := w_tasks w ++ [r] |}) /\
    GetAccessor ctx' = GetAccessor (w_ctx w) /\
    0 <= AccessThreadStateOfCurrentThread (w_thread_states w) worker < 2 ^ 32.
Proof.
  intros Hscan Ht HV Hr Hfuel Hrange Hinit.
  assert (Hacc0 : 0 <= AccessThreadStateOfCurrentThread (w_thread_states w) worker < 2 ^ 32).
  { unfold AccessThreadStateOfCurrentThread.
    destruct (find_state (tsc_states (w_thread_states w)) worker) eqn:E.
    - eapply find_state_in_range; eassumption.
    - rewrite Hinit. lia. }
  unfold ScanTask_call.
  destruct (Init_returns V (task_iterator task r) (w_ctx w) t Ht)
    as (it1 & ctx1 & HI & HR & Hacc & Htab & _ & _ & _ & Hcur & Hfin & _ & pc & Hl & Hmax & _ & Hp).
  rewrite HI. cbn [mbind Outcome_bind negb].
  destruct HR as [Hi (t' & cur' & fin' & p' & pc' & _ & _ & _ & Hp' & Hb' & _)].
  assert (p' = length (pool_cells (GetMemoryPool (w_ctx w)))) by congruence. subst p'.
  cbn [task_iterator TableVectorIterator_range start_block_idx_ end_block_idx_] in Hcur, Hfin.
  rewrite Hscan. destruct (query_state_ task).
  destruct (scanner_counts fuel it1 ctx1
              (AccessThreadStateOfCurrentThread (w_thread_states w) worker)
              t (beginAt t (my_begin r)) (endAt t (my_end r))
              (length (pool_cells (GetMemoryPool (w_ctx w)))) pc)
    as (it2 & ctx2 & Hrun & HR2 & Hacc2); try assumption.
  - lia.
  - apply block_position_mono. exact Hr.
  - apply block_position_total.
  - pose proof (block_position_total t (my_end r)). unfold endAt. lia.
  - rewrite Hrun. cbn [mbind Outcome_bind].
    destruct (Destroy_ready it2 ctx2 HR2) as (ctx3 & HD & Hacc3).
    rewrite HD. cbn [mbind Outcome_bind].
    exists ctx3. split; [reflexivity|]. split; [congruence|exact Hacc0].
Qed.

Lemma run_tasks_count (V fuel : nat) (task : @ScanTask unit Z) (sched : Scheduler)
    (t : SqlTable) (pieces : list blocked_range) :
  scanner_ task = scanner fuel ->
  (0 < V)%nat -> (total_rows t < fuel)%nat ->
  forall (lo hi : Z) (w : World),
    chained lo hi pieces ->
    GetTable (w_ctx w) (table_id_ task) = Some t ->
    counters_in_range (tsc_states (w_thread_states w)) ->
    tsc_init (w_thread_states w) = 0 ->
    exists w',
      run_tasks (ScanTask_body V task) sched pieces w = Returns w' /\
      counters_in_range (tsc_states (w_thread_states w')) /\
      wrap32 (sum_counters (tsc_states (w_thread_states w'))) =
        wrap32 (sum_counters (tsc_states (w_thread_states w))
                + Z.of_nat (block_position t hi - block_position t lo)).
Proof.
  intros Hscan HV Hfuel.
  induction pieces as [|r rest IH]; intros lo hi w Hch Ht Hrange Hinit.
  - cbn in Hch. subst hi. exists w. cbn [run_tasks].
    rewrite Nat.sub_diag, Z.add_0_r. repeat split; try reflexivity. exact Hrange.
  - destruct Hch as (Hb & Hlt & Hrest). cbn [run_tasks].
    destruct (ScanTask_counts V fuel task r (sched_worker sched r) w t
                Hscan Ht HV ltac:(lia) Hfuel Hrange Hinit)
      as (ctx1 & Hcall & Hacc & Hslot).
    set (w1 := {| w_ctx := ctx1;
                  w_thread_states :=
                    write_thread_state (w_thread_states w) (sched_worker sched r)
                      (wrap32 (AccessThreadStateOfCurrentThread (w_thread_states w)
                                 (sched_worker sched r)
                               + Z.of_nat (block_position t (my_end r)
                                           - block_position t (my_begin r))));
                  w_tasks := w_tasks w ++ [r] |}) in *.
    assert (Hbody : ScanTask_body V task r (sched_worker sched r) w = Returns w1).
    { unfold ScanTask_body. rewrite Hcall. reflexivity. }
    rewrite Hbody. cbn [mbind Outcome_bind].
    destruct (IH (my_end r) hi w1 Hrest) as (w' & Hrun & Hrange' & Hsum).
    + unfold GetTable in *. cbn [w1 w_ctx]. rewrite Hacc. exact Ht.
    + cbn [w1 w_thread_states write_thread_state tsc_states].
      apply put_state_in_range; [exact Hrange|apply wrap32_range].
    + cbn [w1 w_thread_states write_thread_state tsc_init]. exact Hinit.
    + exists w'. split; [exact Hrun|]. split; [exact Hrange'|].
      rewrite Hsum. cbn [w1 w_thread_states write_thread_state tsc_states].
      rewrite put_state_sum.
      unfold AccessThreadStateOfCurrentThread. rewrite Hinit.
      set (old := default 0 (find_state (tsc_states (w_thread_states w)) (sched_worker sched r))).
      replace (match find_state (tsc_states (w_thread_states w)) (sched_worker sched r) with
               | Some s => s | None => 0 end) with old
        by (unfold old; destruct (find_state _ _); reflexivity).
      pose proof (chained_le _ _ _ Hrest) as Hle.
      pose proof (block_position_mono t (my_begin r) (my_end r) ltac:(lia)) as M1.
      pose proof (block_position_mono t (my_end r) hi Hle) as M2.
      subst lo.
      set (S0 := sum_counters (tsc_states (w_thread_states w))).
      set (n1 := Z.of_nat (block_position t (my_end r) - block_position t (my_begin r))).
      replace (Z.of_nat (block_position t hi - block_position t (my_begin r)))
        with (n1 + Z.of_nat (block_position t hi - block_position t (my_end r)))
        by (unfold n1; lia).
      set (n2 := Z.of_nat (block_position t hi - block_position t (my_end r))).
      unfold wrap32.
      replace (S0 - old + (old + n1) mod 2 ^ 32 + n2)
        with ((old + n1) mod 2 ^ 32 + (S0 - old + n2)) by lia.
      rewrite Zplus_mod_idemp_l. f_equal. lia.
Qed.

Lemma sequential_count_total (V fuel : nat) (table_oid : Z) (ctx : ExecutionContext)
    (t : SqlTable) :
  (0 < V)%nat -> GetTable ctx table_oid = Some t ->
  GetBlockListSize t < 2 ^ 32 -> (total_rows t < fuel)%nat ->
  sequential_count V fuel table_oid ctx = Returns (wrap32 (Z.of_nat (total_rows t))).
Proof.
  intros HV Ht HB Hfuel. unfold sequential_count.
  destruct (Init_returns V (TableVectorIterator_new table_oid [1] 1) ctx t Ht)
    as (it1 & ctx1 & HI & HR & Hacc & Htab & _ & _ & _ & Hcur & Hfin & _ & pc & Hl & Hmax & _ & Hp).
  rewrite HI. cbn [mbind Outcome_bind].
  destruct HR as [Hi (t' & cur' & fin' & p' & pc' & _ & _ & _ & Hp' & Hb' & _)].
  assert (p' = length (pool_cells (GetMemoryPool ctx))) by congruence. subst p'.
  cbn [TableVectorIterator_new TableVectorIterator_range start_block_idx_ end_block_idx_]
    in Hcur, Hfin.
  unfold beginAt in Hcur. unfold endAt in Hfin.
  rewrite block_position_zero in Hcur.
  rewrite block_position_end in Hfin by (unfold UINT32_MAX; lia).
  destruct (scanner_counts fuel it1 ctx1 0 t 0%nat (total_rows t)
              (length (pool_cells (GetMemoryPool ctx))) pc)
    as (it2 & ctx2 & Hrun & HR2 & Hacc2); try assumption; try lia.
  rewrite Hrun. cbn [mbind Outcome_bind].
  destruct (Destroy_ready it2 ctx2 HR2) as (ctx3 & HD & _).
  rewrite HD. cbn [mbind Outcome_bind].
  rewrite Nat.sub_0_r, Z.add_0_l. reflexivity.
Qed.

Lemma parallel_count_total (V fuel : nat) (sched : Scheduler) (table_oid : Z)
    (ctx : ExecutionContext) (t : SqlTable) :
  (0 < V)%nat -> 0 <= table_oid < 2 ^ 16 -> GetTable ctx table_oid = Some t ->
  GetBlockListSize t < 2 ^ 32 -> (total_rows t < fuel)%nat ->
  parallel_count V fuel sched table_oid ctx =
    Returns (true, wrap32 (Z.of_nat (total_rows t))).
Proof.
  intros HV Hoid Ht HB Hfuel. unfold parallel_count, ParallelScan. cbn [world_of w_ctx].
  rewrite Ht. unfold parallel_for.
  assert (HB0 : 0 <= GetBlockListSize t) by (unfold GetBlockListSize; lia).
  rewrite wrap32_small by lia.
  set (w0 := world_of ctx).
  set (task := ScanTask_new table_oid tt (scanner fuel)).
  set (range := {| my_begin := 0; my_end := GetBlockListSize t; my_grainsize := 3 |}).
  assert (Hch : chained 0 (GetBlockListSize t) (scan_partition sched range)).
  { unfold scan_partition, range_empty. cbn [range my_begin my_end].
    destruct (Z.ltb_spec 0 (GetBlockListSize t)) as [Hpos|Hzero]; cbn [negb].
    - apply (subranges_sound sched 3 _ range); [lia|reflexivity|exact Hpos].
    - cbn. lia. }
  destruct (run_tasks_count V fuel task sched t (scan_partition sched range)
              eq_refl HV Hfuel 0 (GetBlockListSize t) w0 Hch)
    as (w' & Hrun & Hrange & Hsum).
  - cbn [task ScanTask_new table_id_ w0 world_of w_ctx]. rewrite wrap16_small by exact Hoid. exact Ht.
  - constructor.
  - reflexivity.
  - rewrite Hrun. cbn [mbind Outcome_bind].
    unfold aggregate_tuple_count, ForEach.
    rewrite aggregate_is_sum by lia. rewrite Z.add_0_l, Hsum.
    cbn [w0 world_of w_thread_states tsc_states sum_counters foldr].
    rewrite block_position_zero, block_position_end, Nat.sub_0_r, Z.add_0_l by lia.
    reflexivity.
Qed.

(** X7. For a table identifier that fits 16 bits, the parallel scan and the
    sequential scan count the same rows, all of them (modulo [2^32], the
    width of the counters), whatever the scheduler does. *)
Lemma parallel_count_matches_sequential (V fuel : nat) (sched : Scheduler)
    (table_oid : Z) (ctx : ExecutionContext) (t : SqlTable) :
  (0 < V)%nat -> 0 <= table_oid < 2 ^ 16 -> GetTable ctx table_oid = Some t ->
  GetBlockListSize t < 2 ^ 32 -> (total_rows t < fuel)%nat ->
  exists n,
    sequential_count V fuel table_oid ctx = Returns n /\
    parallel_count V fuel sched table_oid ctx = Returns (true, n).
Proof.
  intros HV Hoid Ht HB Hfuel. exists (wrap32 (Z.of_nat (total_rows t))). split.
  - apply sequential_count_total; assumption.
  - apply parallel_count_total; assumption.
Qed.

(* ===================================================================== *)
(** * The theorems at concrete inputs *)

Lemma it_ready_well_formed : well_formed it_ready ctx_ready.
Proof.
  right. split; [reflexivity|].
  exists table_a, 0%nat, 7%nat, 0%nat,
    {| pc_col_oids := [1]; pc_max_tuples := 2; pc_size := 8; pc_tuples := [] |}.
  repeat split; reflexivity.
Defined.

Lemma Advance_contract_witness :
  well_formed it_ready ctx_ready /\
  exists it' ctx', Advance it_ready ctx_ready = Returns (true, it', ctx').
Proof.
  split; [exact it_ready_well_formed|].
  destruct (Advance_contract it_ready ctx_ready it_ready_well_formed) as (_ & _ & H).
  destruct H as (t & cur & fin & p & pc & _ & _ & _ & _ & _ & HA & _).
  - intros [Hf|(c & Hc & Hfin)]; [discriminate Hf|].
    vm_compute in Hc, Hfin. congruence.
  - eexists _, _. exact HA.
Defined.

Lemma ParallelScan_unresolved_witness :
  GetTable (w_ctx (world_of ctx_small)) 7 = None /\
  ParallelScan 2048 eager 7 tt (scanner 100) (world_of ctx_small)
    = Returns (false, world_of ctx_small).
Proof.
  split; [reflexivity|].
  apply (ParallelScan_unresolved 2048 eager 7 tt (scanner 100) (world_of ctx_small)).
  reflexivity.
Defined.

Lemma empty_range_yields_nothing_witness :
  GetTable ctx_small (table_oid_ (TableVectorIterator_new 2 [1] 1)) = Some empty_table /\
  GetBlockListSize empty_table = 0 /\
  exists it' ctx',
    Init 2048 (TableVectorIterator_new 2 [1] 1) ctx_small = Returns (true, it', ctx') /\
    Advance it' ctx' = Returns (false, it', ctx') /\
    forall n, advance_calls n it' ctx' = Returns (repeat false n).
Proof.
  split; [reflexivity|]. split; [reflexivity|].
  apply (empty_range_yields_nothing 2048 (TableVectorIterator_new 2 [1] 1)
           ctx_small empty_table).
  - reflexivity.
  - left. reflexivity.
Defined.

Lemma Init_projects_all_columns_witness :
  col_oids_ (TableVectorIterator_range 1 [] 0 0 2) = [] /\
  GetTable ctx_small (table_oid_ (TableVectorIterator_range 1 [] 0 0 2)) = Some table_a /\
  exists it' ctx' p pc,
    Init 2048 (TableVectorIterator_range 1 [] 0 0 2) ctx_small = Returns (true, it', ctx') /\
    col_oids_ it' = GetAllColOid table_a /\
    projected_columns_ it' = Some p /\
    load_pc (GetMemoryPool ctx') p = Some pc /\
    pc_col_oids pc = GetAllColOid table_a /\
    (tbl_columns table_a <> [] -> col_oids_ it' <> []).
Proof.
  split; [reflexivity|]. split; [reflexivity|].
  apply (Init_projects_all_columns 2048 (TableVectorIterator_range 1 [] 0 0 2)
           ctx_small table_a); reflexivity.
Defined.

Lemma ScanTask_truncates_table_id_witness :
  2 ^ 16 <= 65537 < 2 ^ 32 /\
  forall block_range : blocked_range,
    table_oid_ (task_iterator (ScanTask_new 65537 tt (scanner 100)) block_range)
      = 65537 mod 2 ^ 16 /\
    table_oid_ (task_iterator (ScanTask_new 65537 tt (scanner 100)) block_range)
      <> 65537.
Proof.
  assert (H : 2 ^ 16 <= 65537 < 2 ^ 32) by (split; [discriminate|reflexivity]).
  split; [exact H|].
  exact (proj1 (proj2 (ScanTask_truncates_table_id 65537 tt (scanner 100) H))).
Defined.

Lemma Init_never_false_witness :
  Init 2048 (TableVectorIterator_new 7 [1] 1) ctx_small = Fatal AssertionFailure.
Proof.
  apply (proj1 (proj2 Init_never_false)). reflexivity.
Defined.

Lemma scan_partition_sound_witness :
  0 <= 13 /\ 0 < 3 /\
  Forall (fun r => Z.min 13 ((3 + 1) / 2) <= range_size r)
         (scan_partition eager (block_range_of 13 3)).
Proof.
  assert (H13 : 0 <= 13) by discriminate.
  assert (H3 : 0 < 3) by reflexivity.
  split; [exact H13|]. split; [exact H3|].
  exact (proj2 (proj2 (proj2 (scan_partition_sound eager 13 3 H13 H3)))).
Defined.

(* ===================================================================== *)
(** * Further properties of the iterator and of the parallel scan *)

(** ** Shared lemmas *)

Lemma Scanning_ready (it : TableVectorIterator) (ctx : ExecutionContext)
    (t : SqlTable) (cur fin p V size : nat) :
  Scanning it ctx t cur fin p V size -> Ready it ctx.
Proof.
  intros (Hi & Ht & Hc & Hf & Hp & Hb & pc & Hl & _ & _).
  split; [exact Hi|]. exists t, cur, fin, p, pc. repeat split; assumption.
Qed.

Lemma Scanning_holds (it : TableVectorIterator) (ctx : ExecutionContext)
    (t : SqlTable) (cur fin p V size : nat) :
  Scanning it ctx t cur fin p V size -> Holds it ctx p size.
Proof.
  intros (Hi & Ht & Hc & Hf & Hp & Hb & pc & Hl & _ & Hs).
  repeat split; try assumption. exists pc. split; assumption.
Qed.

Lemma Init_scanning (V : nat) (it : TableVectorIterator) (ctx : ExecutionContext)
    (t : SqlTable) :
  GetTable ctx (table_oid_ it) = Some t ->
  exists it' ctx' size,
    Init V it ctx = Returns (true, it', ctx') /\
    Scanning it' ctx' t (beginAt t (start_block_idx_ it)) (endAt t (end_block_idx_ it))
      (length (pool_cells (GetMemoryPool ctx))) V size /\
    GetAccessor ctx' = GetAccessor ctx /\
    table_oid_ it' = table_oid_ it /\
    start_block_idx_ it' = start_block_idx_ it /\
    end_block_idx_ it' = end_block_idx_ it /\
    length (pool_cells (GetMemoryPool ctx')) = S (length (pool_cells (GetMemoryPool ctx))) /\
    pool_log (GetMemoryPool ctx') =
      pool_log (GetMemoryPool ctx)
        ++ [EvAllocate (length (pool_cells (GetMemoryPool ctx))) size].
Proof.
  intros Ht. unfold Init. rewrite Ht.
  set (cols := match col_oids_ it with [] => GetAllColOid t | _ :: _ => col_oids_ it end).
  set (pc_init := InitializerForProjectedColumns t cols V).
  pose proof (load_after_allocate (GetMemoryPool ctx) (ProjectedColumnsSize pc_init)
                8 false (InitializeColumns pc_init)) as Hload.
  unfold AllocateAligned in *. cbv zeta in *. cbn [fst snd] in Hload.
  eexists _, _, (ProjectedColumnsSize pc_init).
  split; [reflexivity|]. split; [|repeat split].
  - repeat split. exists (InitializeColumns pc_init).
    split; [exact Hload|]. split; reflexivity.
  - cbn. rewrite length_alter, length_app. cbn. lia.
Qed.

Lemma Advance_scanning (it : TableVectorIterator) (ctx : ExecutionContext)
    (t : SqlTable) (cur fin p V size : nat) :
  Scanning it ctx t cur fin p V size -> cur <> fin ->
  exists pc,
    load_pc (GetMemoryPool ctx) p = Some pc /\ pc_max_tuples pc = V /\
    let filled := RangeScan t cur fin pc in
    let it' := set_pci (set_cursor it (Some (fst filled))) (SetProjectedColumn p) in
    let ctx' := with_pool ctx (store_pc (GetMemoryPool ctx) p (snd filled)) in
    Advance it ctx = Returns (true, it', ctx') /\
    Scanning it' ctx' t (fst filled) fin p V size /\
    load_pc (GetMemoryPool ctx') p = Some (snd filled).
Proof.
  intros (Hi & Ht & Hc & Hf & Hp & Hb & pc & Hl & Hmax & Hs) Hne.
  exists pc. split; [exact Hl|]. split; [exact Hmax|]. cbv zeta.
  assert (Hl' : load_pc (GetMemoryPool
                  (with_pool ctx (store_pc (GetMemoryPool ctx) p
                                    (snd (RangeScan t cur fin pc))))) p
                = Some (snd (RangeScan t cur fin pc))).
  { cbn [with_pool GetMemoryPool]. apply load_store_pc.
    eapply load_pc_bound; eassumption. }
  split; [apply Advance_fill; assumption|]. split; [|exact Hl'].
  repeat split; try assumption.
  exists (snd (RangeScan t cur fin pc)). split; [exact Hl'|]. split; assumption.
Qed.

Lemma scanner_exhausts (fuel : nat) :
  forall (it : TableVectorIterator) (ctx : ExecutionContext) (c : Z)
         (t : SqlTable) (cur fin p V size : nat),
    Scanning it ctx t cur fin p V size ->
    (0 < V)%nat -> (cur <= fin)%nat -> (fin <= total_rows t)%nat ->
    (fin - cur < fuel)%nat -> 0 <= c < 2 ^ 32 ->
    exists it' ctx',
      scanner fuel tt c it ctx = Returns (wrap32 (c + Z.of_nat (fin - cur)), it', ctx') /\
      Scanning it' ctx' t fin fin p V size /\
      start_block_idx_ it' = start_block_idx_ it /\
      GetAccessor ctx' = GetAccessor ctx /\
      pool_log (GetMemoryPool ctx') = pool_log (GetMemoryPool ctx) /\
      length (pool_cells (GetMemoryPool ctx')) = length (pool_cells (GetMemoryPool ctx)).
Proof.
  induction fuel as [|fuel IH];
    intros it ctx c t cur fin p V size HS HV Hle Hfin Hfuel Hrange; [lia|].
  cbn [scanner].
  destruct (Nat.eq_dec cur fin) as [E|Hne].
  - subst fin. rewrite Advance_converged.
    + cbn. exists it, ctx. rewrite Nat.sub_diag, Z.add_0_r, wrap32_small by exact Hrange.
      repeat split; try reflexivity; apply HS.
    + right. eapply Scanning_ready; exact HS.
    + exists cur. destruct HS as (_ & _ & Hc & Hf & _). split; assumption.
  - destruct (Advance_scanning it ctx t cur fin p V size HS Hne)
      as (pc & Hl & Hmax & HA & HS1 & Hl1).
    rewrite HA. cbn [mbind Outcome_bind].
    destruct (RangeScan_fill t cur fin pc ltac:(lia) Hfin ltac:(lia))
      as (Hn1 & Hcur & Hnum & _).
    set (filled := RangeScan t cur fin pc) in *.
    unfold GetProjectedColumnsIterator. cbn [set_pci pci_].
    unfold pci_remaining, SetProjectedColumn. cbn [pci_columns pci_idx].
    rewrite Hl1, Nat.sub_0_r.
    rewrite (count_rows_all _ p (snd filled) (NumTuples (snd filled)) Hl1 0%nat c)
      by (try exact Hrange; lia).
    destruct (IH (set_pci
                    (set_pci (set_cursor it (Some (fst filled)))
                       {| pci_columns := Some p; pci_idx := 0 |})
                    {| pci_columns := Some p; pci_idx := NumTuples (snd filled) |})
                 (with_pool ctx (store_pc (GetMemoryPool ctx) p (snd filled)))
                 (wrap32 (c + Z.of_nat (NumTuples (snd filled))))
                 t (fst filled) fin p V size)
      as (it' & ctx' & Hrun & HS' & Hst & Hacc & Hlog & Hlen);
      try exact HS1; try apply wrap32_range; try lia.
    exists it', ctx'. split; [|split; [exact HS'|]].
    + rewrite Hrun, wrap32_add_l.
      replace (fin - cur)%nat with (NumTuples (snd filled) + (fin - fst filled))%nat by lia.
      rewrite Nat2Z.inj_add, Z.add_assoc. reflexivity.
    + rewrite Hst, Hacc, Hlog, Hlen. cbn. rewrite length_alter. repeat split; reflexivity.
Qed.

Lemma allocations_app (l1 l2 : list PoolEvent) :
  allocations (l1 ++ l2) = (allocations l1 + allocations l2)%nat.
Proof.
  induction l1 as [|[q s|q s] l1 IH]; cbn; [reflexivity| |]; rewrite IH; reflexivity.
Qed.

Lemma releases_app (l1 l2 : list PoolEvent) :
  releases (l1 ++ l2) = (releases l1 + releases l2)%nat.
Proof.
  induction l1 as [|[q s|q s] l1 IH]; cbn; [reflexivity| |]; rewrite IH; reflexivity.
Qed.

(** ** The buffer over the life of an iterator *)

(** X2. [Init] is not guarded against a second call: each call allocates a
    fresh buffer, and the destructor releases only the one of the last
    call, so the buffer of the first call is never released. *)
Theorem Init_twice_leaks (V : nat) (it : TableVectorIterator)
    (ctx : ExecutionContext) (t : SqlTable) :
  GetTable ctx (table_oid_ it) = Some t ->
  exists it1 ctx1 it2 ctx2 ctx3 p1 p2 size,
    Init V it ctx = Returns (true, it1, ctx1) /\
    Init V it1 ctx1 = Returns (true, it2, ctx2) /\
    Destroy it2 ctx2 = Returns ctx3 /\
    p1 <> p2 /\
    pool_log (GetMemoryPool ctx3) =
      pool_log (GetMemoryPool ctx)
        ++ [EvAllocate p1 size; EvAllocate p2 size; EvDeallocate (Some p2) size] /\
    allocations (pool_log (GetMemoryPool ctx3))
      = S (S (allocations (pool_log (GetMemoryPool ctx)))) /\
    releases (pool_log (GetMemoryPool ctx3))
      = S (releases (pool_log (GetMemoryPool ctx))).
Proof.
  intros Ht.
  assert (Hsize : forall it0 ctx0, GetTable ctx0 (table_oid_ it0) = Some t ->
            exists it' ctx',
              Init V it0 ctx0 = Returns (true, it', ctx') /\
              Scanning it' ctx' t (beginAt t (start_block_idx_ it0))
                (endAt t (end_block_idx_ it0))
                (length (pool_cells (GetMemoryPool ctx0))) V
                (ProjectedColumnsSize
                   (InitializerForProjectedColumns t
                      (match col_oids_ it0 with [] => GetAllColOid t | _ :: _ => col_oids_ it0 end) V)) /\
              GetAccessor ctx' = GetAccessor ctx0 /\
              table_oid_ it' = table_oid_ it0 /\
              col_oids_ it' =
                (match col_oids_ it0 with [] => GetAllColOid t | _ :: _ => col_oids_ it0 end) /\
              length (pool_cells (GetMemoryPool ctx')) = S (length (pool_cells (GetMemoryPool ctx0))) /\
              pool_log (GetMemoryPool ctx') =
                pool_log (GetMemoryPool ctx0)
                  ++ [EvAllocate (length (pool_cells (GetMemoryPool ctx0)))
                        (ProjectedColumnsSize
                           (InitializerForProjectedColumns t
                              (match col_oids_ it0 with [] => GetAllColOid t | _ :: _ => col_oids_ it0 end) V))]).
  { intros it0 ctx0 Ht0. unfold Init. rewrite Ht0.
    set (cols := match col_oids_ it0 with [] => GetAllColOid t | _ :: _ => col_oids_ it0 end).
    set (pc_init := InitializerForProjectedColumns t cols V).
    pose proof (load_after_allocate (GetMemoryPool ctx0) (ProjectedColumnsSize pc_init)
                  8 false (InitializeColumns pc_init)) as Hload.
    unfold AllocateAligned in *. cbv zeta in *. cbn [fst snd] in Hload.
    eexists _, _. split; [reflexivity|]. split; [|repeat split].
    - repeat split. exists (InitializeColumns pc_init).
      split; [exact Hload|]. split; reflexivity.
    - cbn. rewrite length_alter, length_app. cbn. lia. }
  destruct (Hsize it ctx Ht) as (it1 & ctx1 & HI1 & HS1 & Hacc1 & Hoid1 & Hcols1 & Hlen1 & Hlog1).
  assert (Ht1 : GetTable ctx1 (table_oid_ it1) = Some t).
  { unfold GetTable in *. rewrite Hacc1, Hoid1. exact Ht. }
  destruct (Hsize it1 ctx1 Ht1) as (it2 & ctx2 & HI2 & HS2 & _ & _ & _ & _ & Hlog2).
  assert (Hsame : match col_oids_ it1 with [] => GetAllColOid t | _ :: _ => col_oids_ it1 end
                  = match col_oids_ it with [] => GetAllColOid t | _ :: _ => col_oids_ it end).
  { rewrite Hcols1. destruct (col_oids_ it); [|reflexivity].
    destruct (GetAllColOid t); reflexivity. }
  rewrite Hsame in HS2, Hlog2.
  set (size := ProjectedColumnsSize
                 (InitializerForProjectedColumns t
                    (match col_oids_ it with [] => GetAllColOid t | _ :: _ => col_oids_ it end) V)) in *.
  pose proof (Destroy_releases it2 ctx2 _ _ (Scanning_holds _ _ _ _ _ _ _ _ HS2)) as HD.
  exists it1, ctx1, it2, ctx2,
    (with_pool ctx2 (Deallocate (GetMemoryPool ctx2)
                       (Some (length (pool_cells (GetMemoryPool ctx1)))) size)),
    (length (pool_cells (GetMemoryPool ctx))), (length (pool_cells (GetMemoryPool ctx1))), size.
  assert (Hlog3 : pool_log (GetMemoryPool
             (with_pool ctx2 (Deallocate (GetMemoryPool ctx2)
                                (Some (length (pool_cells (GetMemoryPool ctx1)))) size)))
          = pool_log (GetMemoryPool ctx)
              ++ [EvAllocate (length (pool_cells (GetMemoryPool ctx))) size;
                  EvAllocate (length (pool_cells (GetMemoryPool ctx1))) size;
                  EvDeallocate (Some (length (pool_cells (GetMemoryPool ctx1)))) size]).
  { cbn. rewrite Hlog2, Hlog1, <- !app_assoc. reflexivity. }
  split; [exact HI1|]. split; [exact HI2|]. split; [exact HD|].
  split; [lia|]. split; [exact Hlog3|].
  rewrite Hlog3, allocations_app, releases_app. cbn. split; lia.
Qed.

(** X3. [Advance] works in the one buffer [Init] allocated: on a
    well-formed iterator it never allocates and never releases, and it
    leaves the buffer pointer, the batch pointer, the column set, the table,
    the end cursor and the catalog as they are; the iterator stays well
    formed. *)
Theorem Advance_keeps_buffer (it it' : TableVectorIterator)
    (ctx ctx' : ExecutionContext) (b : bool) :
  well_formed it ctx ->
  Advance it ctx = Returns (b, it', ctx') ->
  well_formed it' ctx' /\
  pool_log (GetMemoryPool ctx') = pool_log (GetMemoryPool ctx) /\
  length (pool_cells (GetMemoryPool ctx')) = length (pool_cells (GetMemoryPool ctx)) /\
  buffer_ it' = buffer_ it /\
  projected_columns_ it' = projected_columns_ it /\
  col_oids_ it' = col_oids_ it /\
  table_ it' = table_ it /\
  iter_end_ it' = iter_end_ it /\
  initialized_ it' = initialized_ it /\
  GetAccessor ctx' = GetAccessor ctx.
Proof.
  intros [Hu|HR] HA.
  - rewrite Advance_not_initialized in HA by exact Hu.
    inversion HA; subst b it' ctx'. repeat split. left. exact Hu.
  - destruct (Advance_preserves_ready it it' ctx ctx' b HR HA)
      as (HR' & Hacc & Hlog & Hlen & Hbuf).
    split; [right; exact HR'|]. split; [exact Hlog|]. split; [exact Hlen|].
    split; [exact Hbuf|].
    destruct HR as [Hi (t & cur & fin & p & pc & Ht & Hc & Hf & Hp & Hb & Hl)].
    destruct (Nat.eq_dec cur fin) as [E|Hne].
    + subst fin. rewrite Advance_converged in HA.
      * inversion HA; subst b it' ctx'. repeat split.
      * right. split; [exact Hi|]. exists t, cur, cur, p, pc. repeat split; assumption.
      * exists cur. split; assumption.
    + rewrite (Advance_fill it ctx t cur fin p pc) in HA by assumption.
      inversion HA; subst b it' ctx'. repeat split.
Qed.

(** ** [Reset] *)

(** X4. A scan that has run to the end yields nothing more, and [Reset]
    makes it start over from the iterator's first block: the counting scan
    after [Reset] counts the same rows as the first one, in the same
    buffer. *)
Theorem Reset_restarts_scan (V fuel : nat) (it : TableVectorIterator)
    (ctx : ExecutionContext) (t : SqlTable) :
  GetTable ctx (table_oid_ it) = Some t ->
  (0 < V)%nat -> start_block_idx_ it <= end_block_idx_ it ->
  (total_rows t < fuel)%nat ->
  exists it1 ctx1 it2 ctx2 it3 it4 ctx4 n,
    Init V it ctx = Returns (true, it1, ctx1) /\
    scanner fuel tt 0 it1 ctx1 = Returns (n, it2, ctx2) /\
    n = wrap32 (Z.of_nat (block_position t (end_block_idx_ it)
                          - block_position t (start_block_idx_ it))) /\
    scanner fuel tt 0 it2 ctx2 = Returns (0, it2, ctx2) /\
    Reset it2 = Returns it3 /\
    scanner fuel tt 0 it3 ctx2 = Returns (n, it4, ctx4) /\
    buffer_ it4 = buffer_ it1 /\
    pool_log (GetMemoryPool ctx4) = pool_log (GetMemoryPool ctx1).
Proof.
  intros Ht HV Hrange Hfuel.
  destruct (Init_scanning V it ctx t Ht)
    as (it1 & ctx1 & size & HI & HS1 & _ & _ & Hst1 & _ & _ & _).
  unfold beginAt, endAt in HS1.
  set (cur := block_position t (start_block_idx_ it)) in *.
  set (fin := block_position t (end_block_idx_ it)) in *.
  set (p := length (pool_cells (GetMemoryPool ctx))) in *.
  assert (Hle : (cur <= fin)%nat) by (apply block_position_mono; exact Hrange).
  assert (Hfin : (fin <= total_rows t)%nat) by apply block_position_total.
  destruct (scanner_exhausts fuel it1 ctx1 0 t cur fin p V size HS1 HV Hle Hfin)
    as (it2 & ctx2 & Hrun1 & HS2 & Hst2 & _ & Hlog2 & _); [lia|lia|].
  assert (Hdone : scanner fuel tt 0 it2 ctx2 = Returns (0, it2, ctx2)).
  { destruct fuel as [|fuel']; [lia|]. cbn [scanner].
    rewrite Advance_converged; [reflexivity| |].
    - right. eapply Scanning_ready; exact HS2.
    - exists fin. destruct HS2 as (_ & _ & Hc & Hf & _). split; assumption. }
  pose proof HS2 as (Hi2 & Ht2 & Hc2 & Hf2 & Hp2 & Hb2 & Hpc2).
  assert (HReset : Reset it2 = Returns (set_cursor it2 (Some cur))).
  { unfold Reset. rewrite Hi2, Ht2. cbn. unfold beginAt, cur.
    rewrite Hst2, Hst1. reflexivity. }
  assert (HS3 : Scanning (set_cursor it2 (Some cur)) ctx2 t cur fin p V size).
  { repeat split; try assumption. }
  destruct (scanner_exhausts fuel _ ctx2 0 t cur fin p V size HS3 HV Hle Hfin)
    as (it4 & ctx4 & Hrun2 & HS4 & _ & _ & Hlog4 & _); [lia|lia|].
  exists it1, ctx1, it2, ctx2, (set_cursor it2 (Some cur)), it4, ctx4,
    (wrap32 (0 + Z.of_nat (fin - cur))).
  split; [exact HI|]. split; [exact Hrun1|]. split; [rewrite Z.add_0_l; reflexivity|].
  split; [exact Hdone|]. split; [exact HReset|]. split; [exact Hrun2|]. split.
  - destruct HS4 as (_ & _ & _ & _ & _ & Hb4 & _).
    destruct HS1 as (_ & _ & _ & _ & _ & Hb1 & _). congruence.
  - congruence.
Qed.

(** ** The sequential scan visits every row once, in order *)

Lemma visit_rows_all (pool : MemoryPool) (p : nat) (pc : ProjectedColumns) (n : nat) :
  load_pc pool p = Some pc ->
  forall (idx : nat) (seen : list Tuple),
    (idx + n)%nat = NumTuples pc ->
    visit_rows n {| pci_columns := Some p; pci_idx := idx |} pool seen =
      ({| pci_columns := Some p; pci_idx := NumTuples pc |},
       seen ++ drop idx (pc_tuples pc)).
Proof.
  intros Hl. unfold NumTuples. induction n as [|n IH]; intros idx seen Hidx.
  - cbn. rewrite drop_ge by lia. rewrite app_nil_r.
    replace idx with (length (pc_tuples pc)) by lia. reflexivity.
  - cbn [visit_rows]. unfold PciHasNext, PciGet, NumTuples.
    cbn [pci_columns pci_idx]. rewrite Hl.
    replace (Nat.ltb idx (length (pc_tuples pc))) with true
      by (symmetry; apply Nat.ltb_lt; lia).
    destruct (lookup_lt_is_Some_2 (pc_tuples pc) idx ltac:(lia)) as [val Hval].
    rewrite Hval. unfold PciAdvance. cbn [pci_columns pci_idx].
    rewrite IH by lia. rewrite (drop_S _ _ _ Hval), <- app_assoc. reflexivity.
Qed.

Lemma iterate_table_all (fuel : nat) :
  forall (it : TableVectorIterator) (ctx : ExecutionContext) (seen : list Tuple)
         (t : SqlTable) (cur fin p V size : nat),
    Scanning it ctx t cur fin p V size ->
    (0 < V)%nat -> (cur <= fin)%nat -> (fin <= total_rows t)%nat ->
    (fin - cur < fuel)%nat ->
    exists it' ctx',
      iterate_table fuel it ctx seen =
        Returns (seen ++ take (fin - cur) (drop cur (concat (tbl_blocks t))), it', ctx') /\
      Scanning it' ctx' t fin fin p V size.
Proof.
  induction fuel as [|fuel IH];
    intros it ctx seen t cur fin p V size HS HV Hle Hfin Hfuel; [lia|].
  cbn [iterate_table].
  destruct (Nat.eq_dec cur fin) as [E|Hne].
  - subst fin. rewrite Advance_converged.
    + cbn. exists it, ctx. rewrite Nat.sub_diag, take_0, app_nil_r.
      split; [reflexivity|exact HS].
    + right. eapply Scanning_ready; exact HS.
    + exists cur. destruct HS as (_ & _ & Hc & Hf & _). split; assumption.
  - destruct (Advance_scanning it ctx t cur fin p V size HS Hne)
      as (pc & Hl & Hmax & HA & HS1 & Hl1).
    rewrite HA. cbn [mbind Outcome_bind].
    destruct (RangeScan_fill t cur fin pc ltac:(lia) Hfin ltac:(lia))
      as (Hn1 & Hcur & Hnum & _).
    assert (Htup : pc_tuples (snd (RangeScan t cur fin pc)) =
                   take (Nat.min (pc_max_tuples pc) (fin - cur))
                        (drop cur (concat (tbl_blocks t)))) by reflexivity.
    set (n := Nat.min (pc_max_tuples pc) (fin - cur)) in *.
    set (filled := RangeScan t cur fin pc) in *.
    unfold GetProjectedColumnsIterator. cbn [set_pci pci_].
    unfold pci_remaining, SetProjectedColumn. cbn [pci_columns pci_idx].
    rewrite Hl1, Nat.sub_0_r.
    rewrite (visit_rows_all _ p (snd filled) (NumTuples (snd filled)) Hl1 0%nat seen)
      by lia.
    unfold PciReset. cbn [pci_columns pci_idx].
    destruct (IH (set_pci
                    (set_pci (set_cursor it (Some (fst filled)))
                       {| pci_columns := Some p; pci_idx := 0 |})
                    {| pci_columns := Some p; pci_idx := 0 |})
                 (with_pool ctx (store_pc (GetMemoryPool ctx) p (snd filled)))
                 (seen ++ drop 0 (pc_tuples (snd filled)))
                 t (fst filled) fin p V size)
      as (it' & ctx' & Hrun & HS'); try exact HS1; try lia.
    exists it', ctx'. split; [|exact HS'].
    rewrite Hrun. rewrite drop_0, Htup, Hcur, <- app_assoc.
    replace (fin - cur)%nat with (n + (fin - (cur + n)))%nat by lia.
    rewrite <- (take_take_drop (drop cur (concat (tbl_blocks t))) n (fin - (cur + n))).
    rewrite drop_drop. reflexivity.
Qed.

(** X5. The loop of [SimpleIteratorTest], an iterator over the whole table
    advanced until [Advance] returns false, reads every row of the table
    exactly once and in storage order, whatever the vector size, for a
    table of fewer than [2^32] blocks. *)
Theorem SimpleIteratorTest_visits_all (V fuel : nat) (table_oid : Z)
    (ctx : ExecutionContext) (t : SqlTable) :
  (0 < V)%nat -> GetTable ctx table_oid = Some t ->
  GetBlockListSize t < 2 ^ 32 -> (total_rows t < fuel)%nat ->
  SimpleIteratorTest_scan V fuel table_oid ctx = Returns (concat (tbl_blocks t)).
Proof.
  intros HV Ht HB Hfuel. unfold SimpleIteratorTest_scan.
  destruct (Init_scanning V (TableVectorIterator_new table_oid [1] 1) ctx t Ht)
    as (it1 & ctx1 & size & HI & HS1 & _).
  rewrite HI. cbn [mbind Outcome_bind].
  cbn [TableVectorIterator_new TableVectorIterator_range start_block_idx_ end_block_idx_]
    in HS1.
  unfold beginAt, endAt in HS1.
  rewrite block_position_zero in HS1.
  rewrite block_position_end in HS1 by (unfold UINT32_MAX; lia).
  destruct (iterate_table_all fuel it1 ctx1 [] t 0%nat (total_rows t) _ V size HS1 HV)
    as (it2 & ctx2 & Hrun & HS2); try lia.
  rewrite Hrun. cbn [mbind Outcome_bind].
  destruct (Destroy_ready it2 ctx2 (Scanning_ready _ _ _ _ _ _ _ _ HS2)) as (ctx3 & HD & _).
  rewrite HD. cbn [mbind Outcome_bind].
  rewrite Nat.sub_0_r, drop_0. unfold total_rows. rewrite take_ge by lia. reflexivity.
Qed.

(** ** Tasks of a parallel scan *)

Lemma scan_partition_chained (sched : Scheduler) (B g : Z) :
  0 <= B -> 0 < g -> chained 0 B (scan_partition sched (block_range_of B g)).
Proof.
  intros HB Hg. unfold scan_partition, range_empty. cbn [block_range_of my_begin my_end].
  destruct (Z.ltb_spec 0 B) as [Hpos|Hzero]; cbn [negb].
  - apply (subranges_sound sched g _ (block_range_of B g) Hg eq_refl Hpos).
  - cbn. lia.
Qed.




(** X9. For a table that resolves and has no block, [ParallelScan] returns
    true without running any task: the callback is not called, no iterator
    is built, and the world is left as it is, for every table identifier
    and every callback. *)
Theorem ParallelScan_no_blocks {QS TS : Type} (V : nat) (sched : Scheduler)
    (table_oid : Z) (query_state : QS) (scan_fn : @ScanFn QS TS)
    (w : World) (t : SqlTable) :
  GetTable (w_ctx w) table_oid = Some t ->
  GetBlockListSize t = 0 ->
  ParallelScan V sched table_oid query_state scan_fn w = Returns (true, w).
Proof.
  intros Ht HB. unfold ParallelScan. rewrite Ht, HB. reflexivity.
Qed.


Lemma find_state_put_same {TS : Type} (l : list (nat * TS)) (w : nat) (s : TS) :
  find_state (put_state l w s) w = Some s.
Proof.
  induction l as [|[u x] l IH]; cbn.
  - rewrite Nat.eqb_refl. reflexivity.
  - destruct (Nat.eqb_spec u w) as [->|Huw]; cbn.
    + rewrite Nat.eqb_refl. reflexivity.
    + destruct (Nat.eqb_spec u w); [contradiction|exact IH].
Qed.


(** ** The counting scan in parallel *)

Lemma ScanTask_counting (V fuel : nat) (task : @ScanTask unit Z) (r : blocked_range)
    (worker : nat) (w : World) (t : SqlTable) :
  scanner_ task = scanner fuel ->
  GetTable (w_ctx w) (table_id_ task) = Some t ->
  (0 < V)%nat -> my_begin r <= my_end r -> (total_rows t < fuel)%nat ->
  counters_in_range (tsc_states (w_thread_states w)) ->
  tsc_init (w_thread_states w) = 0 ->
  exists w' p size,
    ScanTask_call V task r worker w = Returns (Scanned, w') /\
    GetAccessor (w_ctx w') = GetAccessor (w_ctx w) /\
    counters_in_range (tsc_states (w_thread_states w')) /\
    tsc_init (w_thread_states w') = 0 /\
    pool_log (GetMemoryPool (w_ctx w')) =
      pool_log (GetMemoryPool (w_ctx w))
        ++ [EvAllocate p size; EvDeallocate (Some p) size].
Proof.
  intros Hscan Ht HV Hr Hfuel Hrange Hinit.
  assert (Hacc0 : 0 <= AccessThreadStateOfCurrentThread (w_thread_states w) worker < 2 ^ 32).
  { unfold AccessThreadStateOfCurrentThread.
    destruct (find_state (tsc_states (w_thread_states w)) worker) eqn:E.
    - eapply find_state_in_range; eassumption.
    - rewrite Hinit. lia. }
  unfold ScanTask_call.
  destruct (Init_scanning V (task_iterator task r) (w_ctx w) t Ht)
    as (it1 & ctx1 & size & HI & HS1 & Hacc1 & _ & _ & _ & _ & Hlog1).
  rewrite HI. cbn [mbind Outcome_bind negb].
  cbn [task_iterator TableVectorIterator_range start_block_idx_ end_block_idx_] in HS1.
  rewrite Hscan. destruct (query_state_ task).
  destruct (scanner_exhausts fuel it1 ctx1
              (AccessThreadStateOfCurrentThread (w_thread_states w) worker)
              t _ _ _ V size HS1 HV)
    as (it2 & ctx2 & Hrun & HS2 & _ & Hacc2 & Hlog2 & _).
  - apply block_position_mono. exact Hr.
  - apply block_position_total.
  - pose proof (block_position_total t (my_end r)). unfold endAt. lia.
  - exact Hacc0.
  - rewrite Hrun. cbn [mbind Outcome_bind].
    rewrite (Destroy_releases it2 ctx2 _ _ (Scanning_holds _ _ _ _ _ _ _ _ HS2)).
    cbn [mbind Outcome_bind].
    eexists _, (length (pool_cells (GetMemoryPool (w_ctx w)))), size.
    split; [reflexivity|]. cbn. split; [congruence|]. split; [|split].
    + apply put_state_in_range; [exact Hrange|apply wrap32_range].
    + exact Hinit.
    + rewrite Hlog2, Hlog1, <- app_assoc. reflexivity.
Qed.

Lemma run_tasks_pool (V fuel : nat) (task : @ScanTask unit Z) (sched : Scheduler)
    (t : SqlTable) (pieces : list blocked_range) :
  scanner_ task = scanner fuel ->
  (0 < V)%nat -> (total_rows t < fuel)%nat ->
  forall (lo hi : Z) (w : World),
    chained lo hi pieces ->
    GetTable (w_ctx w) (table_id_ task) = Some t ->
    counters_in_range (tsc_states (w_thread_states w)) ->
    tsc_init (w_thread_states w) = 0 ->
    exists w',
      run_tasks (ScanTask_body V task) sched pieces w = Returns w' /\
      allocations (pool_log (GetMemoryPool (w_ctx w'))) =
        (allocations (pool_log (GetMemoryPool (w_ctx w))) + length pieces)%nat /\
      releases (pool_log (GetMemoryPool (w_ctx w'))) =
        (releases (pool_log (GetMemoryPool (w_ctx w))) + length pieces)%nat.
Proof.
  intros Hscan HV Hfuel.
  induction pieces as [|r rest IH]; intros lo hi w Hch Ht Hrange Hinit.
  - exists w. cbn. rewrite !Nat.add_0_r. repeat split; reflexivity.
  - destruct Hch as (Hb & Hlt & Hrest). cbn [run_tasks].
    destruct (ScanTask_counting V fuel task r (sched_worker sched r) w t
                Hscan Ht HV ltac:(lia) Hfuel Hrange Hinit)
      as (w1 & p & size & Hcall & Hacc & Hrange1 & Hinit1 & Hlog).
    assert (Hbody : ScanTask_body V task r (sched_worker sched r) w = Returns w1).
    { unfold ScanTask_body. rewrite Hcall. reflexivity. }
    rewrite Hbody. cbn [mbind Outcome_bind].
    destruct (IH (my_end r) hi w1 Hrest) as (w' & Hrun & Hal & Hre);
      [unfold GetTable in *; rewrite Hacc; exact Ht|exact Hrange1|exact Hinit1|].
    exists w'. split; [exact Hrun|].
    rewrite Hal, Hre, Hlog, allocations_app, releases_app. cbn. split; lia.
Qed.

(** X11. A parallel scan with the counting callback gives every buffer
    back: when the table and the identifier the tasks use resolve, each
    task allocates one buffer and releases it, so the scan ends with as many
    allocations as releases more than it started with, one of each per
    piece. *)
Theorem parallel_scan_releases_every_buffer (V fuel : nat) (sched : Scheduler)
    (table_oid : Z) (ctx : ExecutionContext) (t t16 : SqlTable) :
  (0 < V)%nat ->
  GetTable ctx table_oid = Some t ->
  GetTable ctx (wrap16 table_oid) = Some t16 ->
  (total_rows t16 < fuel)%nat ->
  exists w',
    ParallelScan V sched table_oid tt (scanner fuel) (world_of ctx) = Returns (true, w') /\
    allocations (pool_log (GetMemoryPool (w_ctx w'))) =
      (allocations (pool_log (GetMemoryPool ctx))
       + length (scan_partition sched (block_range_of (wrap32 (GetBlockListSize t)) 3)))%nat /\
    releases (pool_log (GetMemoryPool (w_ctx w'))) =
      (releases (pool_log (GetMemoryPool ctx))
       + length (scan_partition sched (block_range_of (wrap32 (GetBlockListSize t)) 3)))%nat.
Proof.
  intros HV Ht Ht16 Hfuel. unfold ParallelScan. cbn [world_of w_ctx].
  rewrite Ht. unfold parallel_for.
  pose proof (scan_partition_chained sched (wrap32 (GetBlockListSize t)) 3
                (proj1 (wrap32_range _)) ltac:(lia)) as Hch.
  destruct (run_tasks_pool V fuel (ScanTask_new table_oid tt (scanner fuel)) sched t16
              _ eq_refl HV Hfuel _ _ (world_of ctx) Hch)
    as (w' & Hrun & Hal & Hre).
  - exact Ht16.
  - constructor.
  - reflexivity.
  - unfold block_range_of in Hrun. rewrite Hrun. cbn [mbind Outcome_bind].
    exists w'. split; [reflexivity|]. split; [exact Hal|exact Hre].
Qed.

(** X12. What the parallel counting scan counts: the rows that the table
    named by the low 16 bits of the identifier holds in its first [B]
    blocks, where [B] is the block count of the table the full identifier
    resolves to (modulo [2^32], the width of the counters), whatever the
    scheduler does. *)
Theorem parallel_count_characterised (V fuel : nat) (sched : Scheduler)
    (table_oid : Z) (ctx : ExecutionContext) (t t16 : SqlTable) :
  (0 < V)%nat ->
  GetTable ctx table_oid = Some t ->
  GetTable ctx (wrap16 table_oid) = Some t16 ->
  GetBlockListSize t < 2 ^ 32 -> (total_rows t16 < fuel)%nat ->
  parallel_count V fuel sched table_oid ctx =
    Returns (true, wrap32 (Z.of_nat (block_position t16 (GetBlockListSize t)))).
Proof.
  intros HV Ht Ht16 HB Hfuel. unfold parallel_count, ParallelScan. cbn [world_of w_ctx].
  rewrite Ht. unfold parallel_for.
  assert (HB0 : 0 <= GetBlockListSize t) by (unfold GetBlockListSize; lia).
  rewrite wrap32_small by lia.
  pose proof (scan_partition_chained sched (GetBlockListSize t) 3 HB0 ltac:(lia)) as Hch.
  destruct (run_tasks_count V fuel (ScanTask_new table_oid tt (scanner fuel)) sched t16
              _ eq_refl HV Hfuel 0 (GetBlockListSize t) (world_of ctx) Hch)
    as (w' & Hrun & Hrange & Hsum).
  - exact Ht16.
  - constructor.
  - reflexivity.
  - unfold block_range_of in Hrun. rewrite Hrun. cbn [mbind Outcome_bind].
    unfold aggregate_tuple_count, ForEach.
    rewrite aggregate_is_sum by lia. rewrite Z.add_0_l, Hsum.
    cbn [world_of w_thread_states tsc_states sum_counters foldr].
    rewrite block_position_zero, Nat.sub_0_r, Z.add_0_l. reflexivity.
Qed.

(* ===================================================================== *)
(** * The further properties at concrete inputs *)


Lemma Init_Destroy_matched_witness :
  GetTable ctx_small (table_oid_ (TableVectorIterator_new 1 [1] 1)) = Some table_a /\
  exists it' ctx' ctx'' p size,
    Init 2 (TableVectorIterator_new 1 [1] 1) ctx_small = Returns (true, it', ctx') /\
    Destroy it' ctx' = Returns ctx'' /\
    pool_log (GetMemoryPool ctx'') =
      pool_log (GetMemoryPool ctx_small)
        ++ [EvAllocate p size; EvDeallocate (Some p) size].
Proof.
  split; [reflexivity|].
  apply (Init_Destroy_matched 2 (TableVectorIterator_new 1 [1] 1) ctx_small table_a).
  reflexivity.
Defined.

Lemma Init_twice_leaks_witness :
  GetTable ctx_small (table_oid_ (TableVectorIterator_new 1 [1] 1)) = Some table_a /\
  exists it1 ctx1 it2 ctx2 ctx3,
    Init 2 (TableVectorIterator_new 1 [1] 1) ctx_small = Returns (true, it1, ctx1) /\
    Init 2 it1 ctx1 = Returns (true, it2, ctx2) /\
    Destroy it2 ctx2 = Returns ctx3 /\
    allocations (pool_log (GetMemoryPool ctx3)) = 2%nat /\
    releases (pool_log (GetMemoryPool ctx3)) = 1%nat.
Proof.
  split; [reflexivity|].
  destruct (Init_twice_leaks 2 (TableVectorIterator_new 1 [1] 1) ctx_small table_a eq_refl)
    as (it1 & ctx1 & it2 & ctx2 & ctx3 & p1 & p2 & size & H1 & H2 & H3 & _ & _ & Ha & Hr).
  exists it1, ctx1, it2, ctx2, ctx3. repeat split; assumption.
Defined.

Lemma Advance_keeps_buffer_witness :
  well_formed it_ready ctx_ready /\
  Advance it_ready ctx_ready = Returns (true, it_advanced, ctx_advanced) /\
  pool_log (GetMemoryPool ctx_advanced) = pool_log (GetMemoryPool ctx_ready) /\
  buffer_ it_advanced = buffer_ it_ready.
Proof.
  assert (HA : Advance it_ready ctx_ready = Returns (true, it_advanced, ctx_advanced))
    by (vm_compute; reflexivity).
  split; [exact it_ready_well_formed|]. split; [exact HA|].
  destruct (Advance_keeps_buffer it_ready it_advanced ctx_ready ctx_advanced true
              it_ready_well_formed HA) as (_ & Hlog & _ & Hbuf & _).
  split; assumption.
Defined.

Lemma Reset_restarts_scan_witness :
  GetTable ctx_small (table_oid_ (TableVectorIterator_range 1 [] 0 1 4)) = Some table_a /\
  (0 < 2)%nat /\
  start_block_idx_ (TableVectorIterator_range 1 [] 0 1 4)
    <= end_block_idx_ (TableVectorIterator_range 1 [] 0 1 4) /\
  (total_rows table_a < 100)%nat /\
  exists it1 ctx1 it2 ctx2 it3 it4 ctx4,
    Init 2 (TableVectorIterator_range 1 [] 0 1 4) ctx_small = Returns (true, it1, ctx1) /\
    scanner 100 tt 0 it1 ctx1 = Returns (4, it2, ctx2) /\
    scanner 100 tt 0 it2 ctx2 = Returns (0, it2, ctx2) /\
    Reset it2 = Returns it3 /\
    scanner 100 tt 0 it3 ctx2 = Returns (4, it4, ctx4).
Proof.
  assert (H1 : GetTable ctx_small (table_oid_ (TableVectorIterator_range 1 [] 0 1 4))
               = Some table_a) by reflexivity.
  assert (H2 : (0 < 2)%nat) by (apply Nat.lt_0_succ).
  assert (H3 : start_block_idx_ (TableVectorIterator_range 1 [] 0 1 4)
               <= end_block_idx_ (TableVectorIterator_range 1 [] 0 1 4))
    by (cbn; discriminate).
  assert (H4 : (total_rows table_a < 100)%nat) by (apply Nat.ltb_lt; reflexivity).
  split; [exact H1|]. split; [exact H2|]. split; [exact H3|]. split; [exact H4|].
  destruct (Reset_restarts_scan 2 100 (TableVectorIterator_range 1 [] 0 1 4)
              ctx_small table_a H1 H2 H3 H4)
    as (it1 & ctx1 & it2 & ctx2 & it3 & it4 & ctx4 & n & HI & Hs1 & Hn & Hs0 & HR & Hs2 & _).
  assert (Hn4 : n = 4) by (rewrite Hn; reflexivity).
  subst n. rewrite Hn4 in Hs1, Hs2.
  exists it1, ctx1, it2, ctx2, it3, it4, ctx4. repeat split; assumption.
Defined.

Lemma SimpleIteratorTest_visits_all_witness :
  (0 < 2)%nat /\ GetTable ctx_small 1 = Some table_a /\
  GetBlockListSize table_a < 2 ^ 32 /\ (total_rows table_a < 100)%nat /\
  SimpleIteratorTest_scan 2 100 1 ctx_small = Returns [10; 11; 12; 13; 14; 15; 16].
Proof.
  assert (H1 : (0 < 2)%nat) by (apply Nat.lt_0_succ).
  assert (H3 : GetBlockListSize table_a < 2 ^ 32) by reflexivity.
  assert (H4 : (total_rows table_a < 100)%nat) by (apply Nat.ltb_lt; reflexivity).
  split; [exact H1|]. split; [reflexivity|]. split; [exact H3|]. split; [exact H4|].
  exact (SimpleIteratorTest_visits_all 2 100 1 ctx_small table_a H1 eq_refl H3 H4).
Defined.



Lemma ParallelScan_no_blocks_witness :
  GetTable (w_ctx (world_of ctx_small)) 2 = Some empty_table /\
  GetBlockListSize empty_table = 0 /\
  ParallelScan 2 eager 2 tt (scanner 100) (world_of ctx_small)
    = Returns (true, world_of ctx_small).
Proof.
  split; [reflexivity|]. split; [reflexivity|].
  exact (ParallelScan_no_blocks 2 eager 2 tt (scanner 100) (world_of ctx_small)
           empty_table eq_refl eq_refl).
Defined.


Lemma parallel_scan_releases_every_buffer_witness :
  (0 < 2)%nat /\ GetTable ctx_small 1 = Some table_a /\
  GetTable ctx_small (wrap16 1) = Some table_a /\ (total_rows table_a < 100)%nat /\
  exists w',
    ParallelScan 2 eager 1 tt (scanner 100) (world_of ctx_small) = Returns (true, w') /\
    allocations (pool_log (GetMemoryPool (w_ctx w'))) = 2%nat /\
    releases (pool_log (GetMemoryPool (w_ctx w'))) = 2%nat.
Proof.
  assert (H1 : (0 < 2)%nat) by (apply Nat.lt_0_succ).
  assert (H4 : (total_rows table_a < 100)%nat) by (apply Nat.ltb_lt; reflexivity).
  split; [exact H1|]. split; [reflexivity|]. split; [reflexivity|]. split; [exact H4|].
  exact (parallel_scan_releases_every_buffer 2 100 eager 1 ctx_small table_a table_a
           H1 eq_refl eq_refl H4).
Defined.

Lemma parallel_count_characterised_witness :
  (0 < 2)%nat /\ GetTable ctx_small 65537 = Some table_b /\
  GetTable ctx_small (wrap16 65537) = Some table_a /\
  GetBlockListSize table_b < 2 ^ 32 /\ (total_rows table_a < 100)%nat /\
  parallel_count 2 100 eager 65537 ctx_small = Returns (true, 2).
Proof.
  assert (H1 : (0 < 2)%nat) by (apply Nat.lt_0_succ).
  assert (H3 : GetBlockListSize table_b < 2 ^ 32) by reflexivity.
  assert (H4 : (total_rows table_a < 100)%nat) by (apply Nat.ltb_lt; reflexivity).
  split; [exact H1|]. split; [reflexivity|]. split; [reflexivity|].
  split; [exact H3|]. split; [exact H4|].
  exact (parallel_count_characterised 2 100 eager 65537 ctx_small table_b table_a
           H1 eq_refl eq_refl H3 H4).
Defined.

Lemma parallel_count_matches_sequential_witness :
  (0 < 2)%nat /\ 0 <= 1 < 2 ^ 16 /\ GetTable ctx_small 1 = Some table_a /\
  GetBlockListSize table_a < 2 ^ 32 /\ (total_rows table_a < 100)%nat /\
  exists n,
    sequential_count 2 100 1 ctx_small = Returns n /\
    parallel_count 2 100 eager 1 ctx_small = Returns (true, n).
Proof.
  assert (H1 : (0 < 2)%nat) by (apply Nat.lt_0_succ).
  assert (H2 : 0 <= 1 < 2 ^ 16) by (split; [discriminate|reflexivity]).
  assert (H3 : GetBlockListSize table_a < 2 ^ 32) by reflexivity.
  assert (H4 : (total_rows table_a < 100)%nat) by (apply Nat.ltb_lt; reflexivity).
  split; [exact H1|]. split; [exact H2|]. split; [reflexivity|].
  split; [exact H3|]. split; [exact H4|].
  exact (parallel_count_matches_sequential 2 100 eager 1 ctx_small table_a
           H1 H2 eq_refl H3 H4).
Defined.
